(** * Validated models: schema binding, validity cache, unknown fields

    A shallow embedding of [qiskit/validation/base.py]: [BaseSchema] with its
    [dump]/[load] overrides and its post-dump and post-load hooks, the
    validity flag kept in the instance's [__is_valid__] attribute, and
    [_SchemaBinder], which installs [to_dict], [from_dict], [_validate] and
    [_invalidate] on a model class and wraps its [__init__].

    Python objects are immutable values here: a function that mutates its
    argument returns the updated object. *)

From stdpp Require Import gmap strings list fin_maps.
From Stdlib Require Import ZArith.

Set Warnings "-register-all".
Set Default Proof Using "Type".
Open Scope string_scope.
Open Scope list_scope.

(** ** Python values *)

(** The values that travel through [dump] and [load]: primitives, lists,
    dicts, attribute-carrying objects (a [SimpleNamespace] or a subclass, with
    the names of the classes in its method resolution order and its
    [__dict__]), class objects, known by the names in their method resolution
    order only, and the sentinel [VALID_MODEL].

    Modelled from the spec: [VALID_MODEL] comes from
    [qiskit.validation.utils], which is not part of the sources at hand; the
    spec calls it a token.  It is compared by identity; what else Python
    does with it (indexing, iterating, calling, reading its [__dict__])
    depends on its class and is left open. *)
Inductive value : Type :=
| VNone
| VBool (b : bool)
| VInt (z : Z)
| VStr (s : string)
| VList (items : list value)
| VDict (entries : gmap string value)
| VObj (mro : list string) (attrs : gmap string value)
| VClass (mro : list string)
| VALID_MODEL.

(** A model instance: [self] in the methods installed by the binder. *)
Record model_instance := Instance {
  inst_mro : list string;
  inst_dict : gmap string value
}.

Definition obj_of (x : model_instance) : value := VObj (inst_mro x) (inst_dict x).

(** Python truthiness, as used by [if errors:] and by the tests on the
    validity flag and on [__validity_warranty__]. *)
Definition truthy (v : value) : bool :=
  match v with
  | VNone => false
  | VBool b => b
  | VInt z => negb (z =? 0)%Z
  | VStr s => negb (String.eqb s "")
  | VList items => negb (bool_decide (length items = 0))
  | VDict entries => negb (bool_decide (size entries = 0))
  | VObj _ _ => true
  | VClass _ => true
  | VALID_MODEL => true
  end.

(** [isinstance(obj, cls)]: only objects have a user class. *)
Definition isinstance (obj : value) (cls : string) : bool :=
  match obj with
  | VObj mro _ => bool_decide (cls ∈ mro)
  | _ => false
  end.

(** ** Errors and exceptions *)

(** An entry of an error set. [BaseSchema.dump] reports
    [ValidationError('Not an instance of ...', data=obj)]; the schema engine
    reports a message for a field, under the element's index in list mode. *)
Inductive error : Type :=
| NotAnInstance (model : string) (data : value)
| FieldError (index : option nat) (field_name : string) (message : string).

Inductive exn : Type :=
| ValidationError (errors : list error)
| ValueError (message : string)
| TypeError
| AttributeError
| IndexError
| KeyError.

(** How a call ends: it returns, it raises, or it goes [Beyond] the values
    above.  [Beyond] stands for a call whose course depends on the inside of
    a class object (its namespace, what calling it does), on the class of an
    object of which only the names are known, on the class of the sentinel,
    or on the order in which Python walks a set; nothing is stated about
    such a call. *)
Inductive outcome (A : Type) : Type :=
| Return (a : A)
| Raise (e : exn)
| Beyond.
Arguments Return {A} a.
Arguments Raise {A} e.
Arguments Beyond {A}.

(** Sequencing of calls that touch no state. *)
Definition and_then {A B} (o : outcome A) (k : A -> outcome B) : outcome B :=
  match o with
  | Return a => k a
  | Raise e => Raise e
  | Beyond => Beyond
  end.

(** ** The process state *)

(** Modelled from the spec: [is_validating] of [qiskit.validation.utils],
    which is not part of the sources at hand.  The spec calls it
    a process-wide flag toggled for the duration of a [_validate()] call.
    [field_calls] counts the calls made to the field validators, the
    observation a counting validator stub would make. *)
Record world := World {
  validating : bool;
  field_calls : nat
}.

Definition M (A : Type) : Type := world -> outcome A * world.

#[export] Instance M_ret : MRet M := fun A a w => (Return a, w).
#[export] Instance M_bind : MBind M := fun A B k c w =>
  match c w with
  | (Return a, w') => k a w'
  | (Raise e, w') => (Raise e, w')
  | (Beyond, w') => (Beyond, w')
  end.

Definition raise {A} (e : exn) : M A := fun w => (Raise e, w).

Definition beyond {A} : M A := fun w => (Beyond, w).

Definition lift {A} (o : outcome A) : M A := fun w => (o, w).

Definition is_validating : M bool := fun w => (Return (validating w), w).

Definition tick : M unit :=
  fun w => (Return tt, World (validating w) (S (field_calls w))).

(** [_validate] sets its local [__is_validating__] before the serialization
    and the check and clears it after them; the flag lives in that call's
    frame, so the session does not outlive the call, however the call ends. *)
Definition in_session {A} (body : M A) : M A := fun w =>
  match body (World true (field_calls w)) with
  | (o, w') => (o, World false (field_calls w'))
  end.

(** ** What Python does with a value *)

(** The characters of a string, each a string of length one. *)
Fixpoint characters (s : string) : list value :=
  match s with
  | EmptyString => []
  | String c rest => VStr (String c EmptyString) :: characters rest
  end.

(** [v[i]] for an index [i]: a dict here has string keys only, so an integer
    is no key of it. *)
Definition subscript (v : value) (i : nat) : outcome value :=
  match v with
  | VList items =>
      match items !! i with
      | Some item => Return item
      | None => Raise IndexError
      end
  | VStr s =>
      match characters s !! i with
      | Some c => Return c
      | None => Raise IndexError
      end
  | VDict _ => Raise KeyError
  | VALID_MODEL => Beyond
  | _ => Raise TypeError
  end.

(** [hash(v)] is known to fail: lists, dicts and namespaces are
    unhashable. *)
Definition hashable (v : value) : bool :=
  match v with
  | VList _ | VDict _ | VObj _ _ => false
  | _ => true
  end.

Definition is_sentinel (v : value) : bool :=
  match v with
  | VALID_MODEL => true
  | _ => false
  end.

Definition string_of (v : value) : option string :=
  match v with
  | VStr s => Some s
  | _ => None
  end.

(** The strings in [set(v)]: the keys of a dict, the characters of a string,
    the strings among the elements of a list, which must all be hashable.
    Anything else cannot be iterated. *)
Definition strings_in_set (v : value) : outcome (gset string) :=
  match v with
  | VDict entries => Return (dom entries)
  | VStr s => Return (list_to_set (omap string_of (characters s)))
  | VList items =>
      if forallb hashable items then
        if existsb is_sentinel items then Beyond
        else Return (list_to_set (omap string_of items))
      else Raise TypeError
  | VALID_MODEL => Beyond
  | _ => Raise TypeError
  end.

(** [v.__dict__]: a namespace has one; the built-in values have none; that
    of a class holds its functions. *)
Definition namespace_of (v : value) : outcome (gmap string value) :=
  match v with
  | VObj _ attrs => Return attrs
  | VClass _ | VALID_MODEL => Beyond
  | _ => Raise AttributeError
  end.

(** [getattr(obj, key)] for a key of [obj.__dict__] that holds [stored].  The
    data descriptors of the class come before the entries of [__dict__]:
    [__class__] answers with the class, [__dict__] with the dict itself and,
    in a subclass of [SimpleNamespace] written in Python, [__weakref__] with
    [None] (no weak reference is ever taken here).  Every other name answers
    with the entry: the classes here are [SimpleNamespace], [BaseModel] and
    classes that add to them what the binder installs, none of which is a
    data descriptor. *)
Definition getattr (mro : list string) (attrs : gmap string value)
    (key : string) (stored : value) : value :=
  if decide (key = "__class__") then VClass mro
  else if decide (key = "__dict__") then VDict attrs
  else if decide (key = "__weakref__" /\ mro <> ["SimpleNamespace"]) then VNone
  else stored.

(** What [getattr] answers for each name of [__dict__]. *)
Definition attributes (mro : list string) (attrs : gmap string value)
  : gmap string value :=
  map_imap (fun key stored => Some (getattr mro attrs key stored)) attrs.

(** Calling a value found where a method was looked up: a built-in value or
    a namespace is not callable; what calling a class does is inside it. *)
Definition call_value {A} (v : value) : M A :=
  match v with
  | VClass _ | VALID_MODEL => beyond
  | _ => raise TypeError
  end.

(** [v.name(...)] for one of the method names of a schema, on a value [v]
    that is no schema: an entry [name] of the [__dict__] of an object is
    called; a plain [SimpleNamespace] without it and a built-in value have
    no such attribute. *)
Definition call_method_of_value {A} (v : value) (name : string) : M A :=
  match v with
  | VObj mro attrs =>
      match attrs !! name with
      | Some u => call_value u
      | None => if decide (mro = ["SimpleNamespace"]) then raise AttributeError
                else beyond
      end
  | VClass _ | VALID_MODEL => beyond
  | _ => raise AttributeError
  end.

(** [instance.schema.name(...)]: an entry [schema] of [__dict__] hides the
    [schema] attribute of the class. *)
Definition through_schema {A} (instance : model_instance) (name : string)
    (method : M A) : M A :=
  match inst_dict instance !! "schema" with
  | Some v => call_method_of_value v name
  | None => method
  end.

(** [instance.name(...)] for a method that the binder installed on the
    class: an entry [name] of [__dict__] hides it. *)
Definition through_instance {A} (instance : model_instance) (name : string)
    (method : M A) : M A :=
  match inst_dict instance !! name with
  | Some v => call_value v
  | None => method
  end.

(** ** Fields and schemas *)

(** Modelled from the spec: the field validator capability, which the engine
    treats as an opaque plugin per field: [check_and_coerce] on load,
    [is_required], and the conversion to a primitive value on dump. *)
Record field := Field {
  fname : string;
  is_required : bool;
  check_and_coerce : value -> value + string;
  to_primitive : value -> value + string
}.

(** The methods a model class can hold: [SimpleNamespace.__init__], the four
    static methods of [_SchemaBinder], and [_decorated], the wrapper that
    [_validate_after_init] builds around an [__init__]. *)
Inductive method : Type :=
| SimpleNamespace_init
| SchemaBinder_to_dict
| SchemaBinder_from_dict
| SchemaBinder_validate
| SchemaBinder_invalidate
| validate_after_init (init_method : method).

(** A model class: its name, the names of the classes in its method
    resolution order (itself first), the name of the schema in its [schema]
    attribute, the methods in its own dict, and the methods that attribute
    lookup finds in its bases. *)
Record model_class := ModelClass {
  cls_name : string;
  cls_mro : list string;
  cls_schema : option string;
  cls_dict : gmap string method;
  cls_bases : gmap string method
}.

(** A schema class.  [own_model_cls] is the entry [model_cls] of the class's
    own [__dict__]; [inherited_model_cls] is what attribute lookup finds
    in the bases, in the end [BaseSchema.model_cls = SimpleNamespace]. *)
Record schema_class := Schema {
  schema_name : string;
  declared_fields : list field;
  own_model_cls : option model_class;
  inherited_model_cls : model_class
}.

Definition SimpleNamespace : model_class :=
  ModelClass "SimpleNamespace" ["SimpleNamespace"] None ∅ ∅.

Definition model_cls (self : schema_class) : model_class :=
  default (inherited_model_cls self) (own_model_cls self).

Definition black_list : list string := ["__is_valid__"].

(** ** The validity flag *)

Definition validate_model (x : model_instance) : model_instance :=
  Instance (inst_mro x) (<["__is_valid__" := VBool true]> (inst_dict x)).

Definition invalidate_instance (x : model_instance) : model_instance :=
  Instance (inst_mro x) (<["__is_valid__" := VBool false]> (inst_dict x)).

(** [getattr(instance, '__is_valid__', False)] *)
Definition is_valid_instance (obj : value) : value :=
  match obj with
  | VObj _ attrs => default (VBool false) (attrs !! "__is_valid__")
  | _ => VBool false
  end.

(** ** The unknown-field merger on dump *)

(** [valid_data[key] = getattr(original_data, key)] for every key of
    [additional_keys]; the keys come from [__dict__]. *)
Definition copy_attributes (keys : list string) (mro : list string)
    (attrs valid_data : gmap string value) : gmap string value :=
  foldr (fun key acc =>
           match attrs !! key with
           | Some stored => <[key := getattr mro attrs key stored]> acc
           | None => acc
           end) valid_data keys.

(** The body shared by both branches of [dump_additional_data]:
    [set(original.__dict__) - set(valid) - set(self.black_list)], and the
    loop over these keys.  Only a dict takes the assignment
    [valid[key] = ...]; with no key left nothing is assigned. *)
Definition dump_additional_item (valid original : value) : outcome value :=
  and_then (namespace_of original) (fun attrs =>
  and_then (strings_in_set valid) (fun seen =>
    let additional_keys : gset string :=
      dom attrs ∖ seen ∖ list_to_set black_list in
    match valid, original with
    | VDict valid_data, VObj mro _ =>
        Return (VDict (copy_attributes (elements additional_keys) mro attrs valid_data))
    | _, _ =>
        if decide (additional_keys = ∅) then Return valid else Raise TypeError
    end)).

(** [for i, _ in enumerate(valid_data)]: element [i] of the output comes
    from [valid_data[i]] and [original_data[i]]; the original is indexed
    only inside the loop. *)
Fixpoint dump_additional_loop (i : nat) (valid_data : list value)
    (original_data : value) : outcome (list value) :=
  match valid_data with
  | [] => Return []
  | item :: rest =>
      and_then (subscript original_data i) (fun original =>
      and_then (dump_additional_item item original) (fun item' =>
      and_then (dump_additional_loop (S i) rest original_data) (fun rest' =>
        Return (item' :: rest'))))
  end.

(** In list mode [valid_data] is walked with [enumerate]: a list element by
    element; a string character by character, none of which takes an
    assignment; a dict key by key, but then [valid_data[i]] is a [KeyError]
    as soon as the original's side of the first round has been computed. *)
Definition dump_additional_data (valid_data : value) (many : bool)
    (original_data : value) : outcome value :=
  if many then
    match valid_data with
    | VList valid_items =>
        and_then (dump_additional_loop 0 valid_items original_data) (fun items =>
          Return (VList items))
    | VStr s =>
        and_then (dump_additional_loop 0 (characters s) original_data) (fun _ =>
          Return valid_data)
    | VDict entries =>
        if decide (dom entries = ∅) then Return valid_data
        else
          and_then (subscript original_data 0) (fun original =>
          and_then (namespace_of original) (fun _ => Raise KeyError))
    | VALID_MODEL => Beyond
    | _ => Raise TypeError
    end
  else dump_additional_item valid_data original_data.

(** ** The schema engine on dump *)

(** Modelled from the spec: the schema engine ([marshmallow.Schema], an
    external library, not part of the sources at hand).  Its accessor reads a
    key of a dict or an attribute of an object. *)
Definition get_value (key : string) (obj : value) : option value :=
  match obj with
  | VDict entries => entries !! key
  | VObj _ attrs => attrs !! key
  | _ => None
  end.

(** Modelled from the spec: the normal walk of a dump.  It reads each
    declared field from the object, skips an absent one, and converts a
    present one to a primitive value with the field's capability, which
    counts as one field call. *)
Fixpoint marshal (index : option nat) (fields : list field) (obj : value)
  : M (gmap string value * list error) :=
  match fields with
  | [] => mret (∅, [])
  | f :: rest =>
      match get_value (fname f) obj with
      | None => marshal index rest obj
      | Some v =>
          _ ← tick;
          '(items, errors) ← marshal index rest obj;
          match to_primitive f v with
          | inl p => mret (<[fname f := p]> items, errors)
          | inr message => mret (items, FieldError index (fname f) message :: errors)
          end
      end
  end.

(** Modelled from the spec: the walk in list mode, element by element, in
    order, the errors of an element under its index. *)
Fixpoint marshal_many (i : nat) (fields : list field) (objs : list value)
  : M (list value * list error) :=
  match objs with
  | [] => mret ([], [])
  | obj :: rest =>
      '(items, errors) ← marshal (Some i) fields obj;
      '(results, errors') ← marshal_many (S i) fields rest;
      mret (VDict items :: results, errors ++ errors')
  end.

(** Modelled from the spec: [Schema.dump] of the engine.  The post-dump hook
    runs when the walk reported no error. *)
Definition Schema_dump (self : schema_class) (obj : value) (many : bool)
  : M (value * list error) :=
  '(preresult, errors) ←
    (if many then
       match obj with
       | VList objs =>
           '(results, errors) ← marshal_many 0 (declared_fields self) objs;
           mret (VList results, errors)
       | _ => raise TypeError
       end
     else
       '(items, errors) ← marshal None (declared_fields self) obj;
       mret (VDict items, errors));
  match errors with
  | [] => result ← lift (dump_additional_data preresult many obj); mret (result, [])
  | _ => mret (preresult, errors)
  end.

(** ** [BaseSchema.dump] and [_to_dict] *)

(** The override of [dump]: inside a session an instance marked valid gives
    the sentinel and a non-instance gives the error; everything else goes to
    the engine's [dump]. *)
Definition dump (self : schema_class) (obj : value) (many : bool)
  : M (value * list error) :=
  v ← is_validating;
  if (v : bool) then
    if isinstance obj (cls_name (model_cls self)) then
      if truthy (is_valid_instance obj) then mret (VALID_MODEL, [])
      else Schema_dump self obj many
    else
      let error := NotAnInstance (cls_name (model_cls self)) obj in
      mret (obj, [error])
  else Schema_dump self obj many.

(** [data, errors = instance.schema.dump(instance)]; [schema] is the schema
    in the [schema] attribute of the instance's class. *)
Definition _to_dict (schema : schema_class) (instance : model_instance) : M value :=
  through_schema instance "dump"
    ('(data, errors) ← dump schema (obj_of instance) false;
     match errors with
     | [] => mret data
     | _ => raise (ValidationError errors)
     end).

(** [instance.to_dict()] *)
Definition call_to_dict (schema : schema_class) (instance : model_instance)
  : M value :=
  through_instance instance "to_dict" (_to_dict schema instance).

(** ** The schema engine on load *)

(** Modelled from the spec: the engine's validation of a mapping.  A declared
    field absent from the mapping is an error when required and is skipped
    otherwise; a present one goes through the field's [check_and_coerce].
    Keys the schema does not declare are not looked at. *)
Fixpoint unmarshal (index : option nat) (fields : list field)
    (data : gmap string value) : M (gmap string value * list error) :=
  match fields with
  | [] => mret (∅, [])
  | f :: rest =>
      match data !! fname f with
      | None =>
          '(ret, errors) ← unmarshal index rest data;
          if is_required f then
            mret (ret, FieldError index (fname f)
                         "Missing data for required field." :: errors)
          else mret (ret, errors)
      | Some raw =>
          _ ← tick;
          '(ret, errors) ← unmarshal index rest data;
          match check_and_coerce f raw with
          | inl v => mret (<[fname f := v]> ret, errors)
          | inr message => mret (ret, FieldError index (fname f) message :: errors)
          end
      end
  end.

(** Modelled from the spec: one element of the input; anything but a
    mapping is an error of the whole element. *)
Definition unmarshal_item (index : option nat) (fields : list field)
    (data : value) : M (value * list error) :=
  match data with
  | VDict entries =>
      '(ret, errors) ← unmarshal index fields entries;
      mret (VDict ret, errors)
  | _ => mret (VNone, [FieldError index "_schema" "Invalid input type."])
  end.

(** Modelled from the spec: the validation in list mode, element by
    element, in order, the errors of an element under its index. *)
Fixpoint unmarshal_many (i : nat) (fields : list field) (data : list value)
  : M (list value * list error) :=
  match data with
  | [] => mret ([], [])
  | d :: rest =>
      '(ret, errors) ← unmarshal_item (Some i) fields d;
      '(results, errors') ← unmarshal_many (S i) fields rest;
      mret (ret :: results, errors ++ errors')
  end.

(** Modelled from the spec: the engine's entry to validation, shared by
    [Schema.load] and [Schema.validate]. *)
Definition deserialize (fields : list field) (data : value) (many : bool)
  : M (value * list error) :=
  if many then
    match data with
    | VList items =>
        '(results, errors) ← unmarshal_many 0 fields items;
        mret (VList results, errors)
    | _ => mret (VList [], [FieldError None "_schema" "Invalid input type."])
    end
  else unmarshal_item None fields data.

(** Modelled from the spec: [Schema.validate] of the engine, the error set
    of a mapping, with no post-load hook. *)
Definition Schema_validate (self : schema_class) (data : value) (many : bool)
  : M (list error) :=
  '(_, errors) ← deserialize (declared_fields self) data many;
  mret errors.

(** ** [_validate], [_invalidate] and the wrapped constructor *)

(** [schema = instance.schema] and [schema.is_valid_instance(instance)]:
    nothing to do for an instance marked valid.  Otherwise, inside a
    session, [instance.schema.validate(instance.to_dict())]; the instance is
    marked valid when that reports no error. *)
Definition _validate (schema : schema_class) (instance : model_instance) : M model_instance :=
  through_schema instance "is_valid_instance"
    (if truthy (is_valid_instance (obj_of instance)) then mret instance
     else
       errors ← in_session (data ← call_to_dict schema instance;
                            Schema_validate schema data false);
       match errors with
       | [] => mret (validate_model instance)
       | _ => raise (ValidationError errors)
       end).

(** [instance.schema.invalidate_instance(instance)] *)
Definition _invalidate (instance : model_instance) : M model_instance :=
  through_schema instance "invalidate_instance"
    (mret (invalidate_instance instance)).

(** Attribute lookup on a class: its own dict, then its bases. *)
Definition class_attribute (cls : model_class) (name : string) : option method :=
  (cls_dict cls ∪ cls_bases cls) !! name.

(** [model_cls.__init__]: what the lookup finds, in the end
    [SimpleNamespace.__init__], which [BaseModel] inherits. *)
Definition lookup_init (cls : model_class) : method :=
  default SimpleNamespace_init (class_attribute cls "__init__").

(** Running an [__init__] on [self].  [SimpleNamespace.__init__] updates
    [__dict__] with the keyword arguments.  [_decorated], whose first
    parameter is [self], cannot take a keyword [self]; it pops
    [__validity_warranty__], runs the wrapped [init_method], and then calls
    [self.schema.validate_model(self)] or [self._validate()], both looked up
    through the instance.  Any other method in the place of [__init__] is
    not followed. *)
Fixpoint run_init (schema : schema_class) (init : method) (self : model_instance)
    (kwargs : gmap string value) : M model_instance :=
  match init with
  | SimpleNamespace_init =>
      mret (Instance (inst_mro self) (kwargs ∪ inst_dict self))
  | validate_after_init init_method =>
      match kwargs !! "self" with
      | Some _ => raise TypeError
      | None =>
          let has_validity_warranty :=
            default (VBool false) (kwargs !! "__validity_warranty__") in
          let kwargs := delete "__validity_warranty__" kwargs in
          self ← run_init schema init_method self kwargs;
          if truthy has_validity_warranty then
            through_schema self "validate_model" (mret (validate_model self))
          else
            through_instance self "_validate" (_validate schema self)
      end
  | _ => beyond
  end.

(** Calling the class with keyword arguments [kwargs]; [schema] is the
    schema in the class's [schema] attribute. *)
Definition construct (schema : schema_class) (cls : model_class)
    (kwargs : gmap string value) : M model_instance :=
  run_init schema (lookup_init cls) (Instance (cls_mro cls) ∅) kwargs.

(** ** The post-load hooks and [BaseSchema.load] *)

(** [valid_data[key] = original_data[key]] for every key of
    [additional_keys]. *)
Definition copy_keys (keys : list string) (source valid_data : gmap string value)
  : gmap string value :=
  foldr (fun key acc =>
           match source !! key with
           | Some v => <[key := v]> acc
           | None => acc
           end) valid_data keys.

(** The body shared by both branches of [load_additional_data]:
    [set(original) - set(valid)], with no use of [black_list], and the loop
    over these keys.  Only a dict can be read at a string key and only a
    dict takes the assignment; with no key left nothing is read or assigned.
    A list original with an element that is no string leaves a key that is
    no string. *)
Definition load_additional_item (valid original : value) : outcome value :=
  and_then (strings_in_set original) (fun keys =>
  and_then (strings_in_set valid) (fun seen =>
    let additional_keys : gset string := keys ∖ seen in
    match valid, original with
    | VDict valid_data, VDict original_data =>
        Return (VDict (copy_keys (elements additional_keys) original_data valid_data))
    | _, VList items =>
        if forallb (fun v => bool_decide (is_Some (string_of v))) items then
          if decide (additional_keys = ∅) then Return valid else Raise TypeError
        else Beyond
    | _, _ =>
        if decide (additional_keys = ∅) then Return valid else Raise TypeError
    end)).

Fixpoint load_additional_loop (i : nat) (valid_data : list value)
    (original_data : value) : outcome (list value) :=
  match valid_data with
  | [] => Return []
  | item :: rest =>
      and_then (subscript original_data i) (fun original =>
      and_then (load_additional_item item original) (fun item' =>
      and_then (load_additional_loop (S i) rest original_data) (fun rest' =>
        Return (item' :: rest'))))
  end.

(** List mode, walked with [enumerate] as on dump. *)
Definition load_additional_data (valid_data : value) (many : bool)
    (original_data : value) : outcome value :=
  if many then
    match valid_data with
    | VList valid_items =>
        and_then (load_additional_loop 0 valid_items original_data) (fun items =>
          Return (VList items))
    | VStr s =>
        and_then (load_additional_loop 0 (characters s) original_data) (fun _ =>
          Return valid_data)
    | VDict entries =>
        if decide (dom entries = ∅) then Return valid_data
        else
          and_then (subscript original_data 0) (fun original =>
          and_then (strings_in_set original) (fun _ => Raise KeyError))
    | VALID_MODEL => Beyond
    | _ => Raise TypeError
    end
  else load_additional_item valid_data original_data.

(** The model class is called with the entries of [data] as keyword
    arguments, plus [__validity_warranty__=True]: [data] must be a mapping,
    and a keyword given twice is a [TypeError].  The [schema] attribute of
    the model class is taken to be [self], as the binder leaves it; with the
    warranty given, a constructor wrapped once does not consult it. *)
Definition _make_model (self : schema_class) (data : value) : M value :=
  match data with
  | VDict kwargs =>
      match kwargs !! "__validity_warranty__" with
      | Some _ => raise TypeError
      | None =>
          x ← construct self (model_cls self)
                (<["__validity_warranty__" := VBool true]> kwargs);
          mret (obj_of x)
      end
  | VALID_MODEL => beyond
  | _ => raise TypeError
  end.

Fixpoint make_models (self : schema_class) (items : list value) : M (list value) :=
  match items with
  | [] => mret []
  | data :: rest =>
      x ← _make_model self data;
      xs ← make_models self rest;
      mret (x :: xs)
  end.

(** Modelled from the spec: [Schema.load] of the engine.  The post-load
    hooks run when validation reported no error: first the hook that sees
    the whole input ([load_additional_data]), then [_make_model] on each
    element. *)
Definition Schema_load (self : schema_class) (data : value) (many : bool)
  : M (value * list error) :=
  '(result, errors) ← deserialize (declared_fields self) data many;
  match errors with
  | [] =>
      result ← lift (load_additional_data result many data);
      result ← (if many then
                  match result with
                  | VList items => items ← make_models self items; mret (VList items)
                  | _ => raise TypeError
                  end
                else _make_model self result);
      mret (result, [])
  | _ => mret (result, errors)
  end.

(** The override of [load]: the sentinel passes through. *)
Definition load (self : schema_class) (data : value) (many : bool)
  : M (value * list error) :=
  match data with
  | VALID_MODEL => mret (data, [])
  | _ => Schema_load self data many
  end.

(** [data, errors = decorated_cls.schema.load(dict_)] *)
Definition _from_dict (schema : schema_class) (dict_ : value) : M value :=
  '(data, errors) ← load schema dict_ false;
  match errors with
  | [] => mret data
  | _ => raise (ValidationError errors)
  end.

(** ** The binder *)

(** [_SchemaBinder.__call__]: the check reads [model_cls] in the schema
    class's own dict; the model class recorded in the schema is the
    augmented one, since both names refer to one class object.  The
    [__init__] that gets wrapped is the one attribute lookup finds on the
    model class. *)
Definition SchemaBinder_call (_schema_cls : schema_class) (model : model_class)
  : outcome (schema_class * model_class) :=
  match own_model_cls _schema_cls with
  | Some bound =>
      Raise (ValueError ("The schema " +:+ schema_name _schema_cls +:+
                         " can not be bound twice. It is already bound to " +:+
                         cls_name bound +:+
                         ". If you want to reuse the schema, use subclassing"))
  | None =>
      let methods :=
        <["__init__" := validate_after_init (lookup_init model)]>
        (<["_invalidate" := SchemaBinder_invalidate]>
        (<["_validate" := SchemaBinder_validate]>
        (<["from_dict" := SchemaBinder_from_dict]>
        (<["to_dict" := SchemaBinder_to_dict]> (cls_dict model))))) in
      let model' :=
        ModelClass (cls_name model) (cls_mro model)
                   (Some (schema_name _schema_cls)) methods (cls_bases model) in
      Return (Schema (schema_name _schema_cls) (declared_fields _schema_cls)
                     (Some model') (inherited_model_cls _schema_cls),
              model')
  end.


(** ** A concrete schema and model

    The pair of the module's docstring: [PersonSchema] declares a required
    string field [name], and [Person] is a [BaseModel] bound to it. *)

Definition String_field (name : string) (required : bool) : field :=
  Field name required
    (fun v => match v with VStr _ => inl v | _ => inr "Not a valid string." end)
    (fun v => match v with VStr _ => inl v | _ => inr "Not a valid string." end).

Definition PersonSchema : schema_class :=
  Schema "PersonSchema" [String_field "name" true] None SimpleNamespace.

Definition Person : model_class :=
  ModelClass "Person" ["Person"; "BaseModel"; "SimpleNamespace"] None ∅ ∅.

Definition bound_pair (s : schema_class) (m : model_class)
  : schema_class * model_class :=
  match SchemaBinder_call s m with
  | Return p => p
  | _ => (s, m)
  end.

Definition BoundPersonSchema : schema_class := fst (bound_pair PersonSchema Person).
Definition BoundPerson : model_class := snd (bound_pair PersonSchema Person).

Definition idle : world := World false 0.
Definition session : world := World true 0.

Definition ada : gmap string value :=
  <["name" := VStr "Ada"]> (<["tag" := VStr "x"]> ∅).

(** A [Person] that has been validated. *)
Definition valid_ada : model_instance :=
  Instance (cls_mro BoundPerson) (<["__is_valid__" := VBool true]> ada).

(** A [Person] whose flag was never set. *)
Definition fresh_ada : model_instance := Instance (cls_mro BoundPerson) ada.

(** A plain namespace that is not a [Person]. *)
Definition stranger : value :=
  VObj ["SimpleNamespace"] (<["name" := VStr "Ada"]> ∅).


(** ** What the engine's walks compute

    The walks of the engine never raise; their result, their errors and the
    number of field calls they make are functions of the fields and the
    input.  The lemmas [marshal_run] and [unmarshal_run] below relate them to
    the walks. *)

Fixpoint marshal_result (fields : list field) (obj : value) : gmap string value :=
  match fields with
  | [] => ∅
  | f :: rest =>
      match get_value (fname f) obj with
      | None => marshal_result rest obj
      | Some v =>
          match to_primitive f v with
          | inl p => <[fname f := p]> (marshal_result rest obj)
          | inr _ => marshal_result rest obj
          end
      end
  end.

Fixpoint marshal_errors (index : option nat) (fields : list field) (obj : value)
  : list error :=
  match fields with
  | [] => []
  | f :: rest =>
      match get_value (fname f) obj with
      | None => marshal_errors index rest obj
      | Some v =>
          match to_primitive f v with
          | inl _ => marshal_errors index rest obj
          | inr message =>
              FieldError index (fname f) message :: marshal_errors index rest obj
          end
      end
  end.

Fixpoint marshal_calls (fields : list field) (obj : value) : nat :=
  match fields with
  | [] => 0
  | f :: rest =>
      match get_value (fname f) obj with
      | None => marshal_calls rest obj
      | Some _ => S (marshal_calls rest obj)
      end
  end.

Fixpoint unmarshal_result (fields : list field) (data : gmap string value)
  : gmap string value :=
  match fields with
  | [] => ∅
  | f :: rest =>
      match data !! fname f with
      | None => unmarshal_result rest data
      | Some raw =>
          match check_and_coerce f raw with
          | inl v => <[fname f := v]> (unmarshal_result rest data)
          | inr _ => unmarshal_result rest data
          end
      end
  end.

Fixpoint unmarshal_errors (index : option nat) (fields : list field)
    (data : gmap string value) : list error :=
  match fields with
  | [] => []
  | f :: rest =>
      match data !! fname f with
      | None =>
          if is_required f then
            FieldError index (fname f) "Missing data for required field."
              :: unmarshal_errors index rest data
          else unmarshal_errors index rest data
      | Some raw =>
          match check_and_coerce f raw with
          | inl _ => unmarshal_errors index rest data
          | inr message =>
              FieldError index (fname f) message :: unmarshal_errors index rest data
          end
      end
  end.

Fixpoint unmarshal_calls (fields : list field) (data : gmap string value) : nat :=
  match fields with
  | [] => 0
  | f :: rest =>
      match data !! fname f with
      | None => unmarshal_calls rest data
      | Some _ => S (unmarshal_calls rest data)
      end
  end.

(** The world after [n] more field calls. *)
Definition after_calls (n : nat) (w : world) : world :=
  World (validating w) (n + field_calls w).

(** The mapping [to_dict] returns for an instance whose walk reports no
    error: the walked fields plus the attributes the merger adds. *)
Definition dumped (fields : list field) (x : model_instance) : gmap string value :=
  let items := marshal_result fields (obj_of x) in
  copy_attributes
    (elements (dom (inst_dict x) ∖ dom items ∖ list_to_set black_list))
    (inst_mro x) (inst_dict x) items.

(** The field calls of a full validation of [x]: the dump walk and, when it
    reports no error, the walk of [Schema.validate] over the dumped mapping. *)
Definition validation_calls (schema : schema_class) (x : model_instance) : nat :=
  let fields := declared_fields schema in
  if isinstance (obj_of x) (cls_name (model_cls schema)) then
    match marshal_errors None fields (obj_of x) with
    | [] => unmarshal_calls fields (dumped fields x) + marshal_calls fields (obj_of x)
    | _ => marshal_calls fields (obj_of x)
    end
  else 0.

(** What a full validation of [x] ends in. *)
Definition validation_outcome (schema : schema_class) (x : model_instance)
  : outcome model_instance :=
  let fields := declared_fields schema in
  if isinstance (obj_of x) (cls_name (model_cls schema)) then
    match marshal_errors None fields (obj_of x) with
    | [] =>
        match unmarshal_errors None fields (dumped fields x) with
        | [] => Return (validate_model x)
        | errors => Raise (ValidationError errors)
        end
    | errors => Raise (ValidationError errors)
    end
  else Raise (ValidationError [NotAnInstance (cls_name (model_cls schema)) (obj_of x)]).

(** The mapping suits the declared fields: a declared field it lacks is
    optional, and a declared field it has holds a value that the field
    accepts and converts back to the same value on dump. *)
Definition accepts (fields : list field) (m : gmap string value) : Prop :=
  forall f, f ∈ fields ->
    match m !! fname f with
    | Some raw =>
        exists v, check_and_coerce f raw = inl v /\ to_primitive f v = inl raw
    | None => is_required f = false
    end.

(** The instance [from_dict] builds from a mapping that validates. *)
Definition loaded (self : schema_class) (data : gmap string value) : model_instance :=
  validate_model
    (Instance (cls_mro (model_cls self))
              (unmarshal_result (declared_fields self) data ∪ data)).

(** The names under which an entry of [__dict__] changes what the methods or
    the merger find: [self] clashes with the first parameter of the wrapped
    constructor, [schema] and [to_dict] hide the attributes of the class,
    and [getattr] does not answer with the entry for the other three. *)
Definition hiding_names : list string :=
  ["self"; "schema"; "to_dict"; "__class__"; "__dict__"; "__weakref__"].

(** ** What a caller can do to an instance *)

(** [instance.key = v]: [__dict__] is read-only, [__class__] takes a class
    only, and then what becomes of the instance is inside that class;
    [__weakref__] is not writable in a subclass of [SimpleNamespace] written
    in Python; every other name becomes an entry of [__dict__]. *)
Definition setattr (x : model_instance) (key : string) (v : value)
  : outcome model_instance :=
  if decide (key = "__dict__") then Raise AttributeError
  else if decide (key = "__class__") then
    match v with
    | VClass _ | VALID_MODEL => Beyond
    | _ => Raise TypeError
    end
  else if decide (key = "__weakref__" /\ inst_mro x <> ["SimpleNamespace"]) then
    Raise AttributeError
  else Return (Instance (inst_mro x) (<[key := v]> (inst_dict x))).

(** [del instance.key]: the same three names refuse; any other name must be
    an entry of [__dict__], which is removed. *)
Definition delattr (x : model_instance) (key : string) : outcome model_instance :=
  if decide (key = "__dict__") then Raise AttributeError
  else if decide (key = "__class__") then Raise TypeError
  else if decide (key = "__weakref__" /\ inst_mro x <> ["SimpleNamespace"]) then
    Raise AttributeError
  else
    match inst_dict x !! key with
    | Some _ => Return (Instance (inst_mro x) (delete key (inst_dict x)))
    | None => Raise AttributeError
    end.

(** The binder's functions applied to an instance, and the ways to change
    its attributes: assignment, deletion, and
    [instance.__dict__.update(entries)]. *)
Inductive call : Type :=
| Call_validate
| Call_invalidate
| Call_to_dict
| Set_attribute (key : string) (v : value)
| Delete_attribute (key : string)
| Update_dict (entries : gmap string value).

Definition perform (schema : schema_class) (c : call) (x : model_instance)
  : M model_instance :=
  match c with
  | Call_validate => _validate schema x
  | Call_invalidate => _invalidate x
  | Call_to_dict => _ ← _to_dict schema x; mret x
  | Set_attribute key v => lift (setattr x key v)
  | Delete_attribute key => lift (delattr x key)
  | Update_dict entries => mret (Instance (inst_mro x) (entries ∪ inst_dict x))
  end.

(** The call deletes the flag's slot. *)
Definition deletes_flag (c : call) : bool :=
  match c with
  | Delete_attribute key => bool_decide (key = "__is_valid__")
  | _ => false
  end.

(** The value that the call itself puts in the flag's slot, if any. *)
Definition stores_flag (c : call) : option value :=
  match c with
  | Set_attribute key v => if decide (key = "__is_valid__") then Some v else None
  | Update_dict entries => entries !! "__is_valid__"
  | _ => None
  end.

(** [is_valid_instance(x)] taken as a condition. *)
Definition is_valid (x : model_instance) : bool :=
  truthy (is_valid_instance (obj_of x)).

(** ** Pickling and the generic object *)

(** [BaseModel.__reduce__]: the helper to call on unpickling, declared
    below, and its arguments, the class of [self] and its [__dict__].  The
    class object comes as [__class__]. *)
Definition __reduce__ (__class__ : model_class) (self : model_instance)
  : model_class * gmap string value :=
  (__class__, inst_dict self).

(** [_base_model_from_kwargs(cls, kwargs)] calls the class with [kwargs] as
    keyword arguments; [schema] is the schema in the class's [schema]
    attribute. *)
Definition _base_model_from_kwargs (schema : schema_class) (cls : model_class)
    (kwargs : gmap string value) : M model_instance :=
  construct schema cls kwargs.

(** What unpickling does with the pair [__reduce__] returned. *)
Definition unpickle (schema : schema_class)
    (reduced : model_class * gmap string value) : M model_instance :=
  _base_model_from_kwargs schema (fst reduced) (snd reduced).

(** [ObjSchema] and [Obj] as their class statements declare them, and as the
    decorator [bind_schema(ObjSchema)] leaves them. *)
Definition ObjSchema_declared : schema_class :=
  Schema "ObjSchema" [] None SimpleNamespace.

Definition Obj_declared : model_class :=
  ModelClass "Obj" ["Obj"; "BaseModel"; "SimpleNamespace"] None ∅ ∅.

Definition ObjSchema : schema_class := fst (bound_pair ObjSchema_declared Obj_declared).
Definition Obj : model_class := snd (bound_pair ObjSchema_declared Obj_declared).

(** * Properties *)

(** ** Running monadic code *)

Lemma run_bind {A B} (c : M A) (k : A -> M B) (w : world) :
  (c ≫= k) w =
  match c w with
  | (Return a, w') => k a w'
  | (Raise e, w') => (Raise e, w')
  | (Beyond, w') => (Beyond, w')
  end.
Proof. reflexivity. Qed.

Lemma run_ret {A} (a : A) (w : world) : (mret a : M A) w = (Return a, w).
Proof. reflexivity. Qed.

Lemma world_eta (w : world) : World (validating w) (field_calls w) = w.
Proof. now destruct w. Qed.

(** A value in the place of a method never gives a result. *)
Lemma call_value_fails {A} (v : value) (w : world) :
  (call_value v : M A) w = (Raise TypeError, w) \/
  (call_value v : M A) w = (Beyond, w).
Proof. destruct v; cbn; auto. Qed.

Lemma call_method_of_value_fails {A} (v : value) (name : string) (w : world) :
  (call_method_of_value v name : M A) w = (Raise TypeError, w) \/
  (call_method_of_value v name : M A) w = (Raise AttributeError, w) \/
  (call_method_of_value v name : M A) w = (Beyond, w).
Proof.
  destruct v as [| | | | | |mro attrs| |]; cbn; auto.
  destruct (attrs !! name) as [u|].
  - destruct (call_value_fails (A := A) u w) as [->| ->]; auto.
  - case_decide; auto.
Qed.

Lemma through_schema_returns {A} (instance : model_instance) (name : string)
    (method : M A) (a : A) (w w' : world) :
  through_schema instance name method w = (Return a, w') ->
  inst_dict instance !! "schema" = None /\ method w = (Return a, w').
Proof.
  unfold through_schema. destruct (inst_dict instance !! "schema") as [v|]; [|auto].
  intros Hrun.
  destruct (call_method_of_value_fails (A := A) v name w) as [H|[H|H]];
    rewrite H in Hrun; discriminate.
Qed.

Lemma through_instance_returns {A} (instance : model_instance) (name : string)
    (method : M A) (a : A) (w w' : world) :
  through_instance instance name method w = (Return a, w') ->
  inst_dict instance !! name = None /\ method w = (Return a, w').
Proof.
  unfold through_instance. destruct (inst_dict instance !! name) as [v|]; [|auto].
  intros Hrun.
  destruct (call_value_fails (A := A) v w) as [H|H]; rewrite H in Hrun; discriminate.
Qed.

Lemma through_schema_free {A} (instance : model_instance) (name : string)
    (method : M A) :
  inst_dict instance !! "schema" = None ->
  through_schema instance name method = method.
Proof. unfold through_schema. now intros ->. Qed.

Lemma through_instance_free {A} (instance : model_instance) (name : string)
    (method : M A) :
  inst_dict instance !! name = None ->
  through_instance instance name method = method.
Proof. unfold through_instance. now intros ->. Qed.

(** ** The two special branches of [dump] *)

(** C5: while a session is active, dumping an instance of the bound model
    whose validity flag is true returns the sentinel [VALID_MODEL] with an
    empty error set and without calling any field; loading the sentinel
    returns it unchanged with an empty error set. *)
Theorem dump_load_valid_sentinel (self : schema_class) (obj : value)
    (many : bool) (w : world) :
  validating w = true ->
  isinstance obj (cls_name (model_cls self)) = true ->
  is_valid_instance obj = VBool true ->
  dump self obj many w = (Return (VALID_MODEL, []), w) /\
  load self VALID_MODEL many w = (Return (VALID_MODEL, []), w).
Proof.
  intros Hsession Hinst Hflag. split; [|reflexivity].
  unfold dump. rewrite run_bind. unfold is_validating.
  now rewrite Hsession, Hinst, Hflag.
Qed.

Lemma dump_load_valid_sentinel_witness :
  dump BoundPersonSchema (obj_of valid_ada) false session
    = (Return (VALID_MODEL, []), session) /\
  load BoundPersonSchema VALID_MODEL false session
    = (Return (VALID_MODEL, []), session).
Proof.
  apply (dump_load_valid_sentinel BoundPersonSchema (obj_of valid_ada) false session);
    reflexivity.
Defined.

(** C10: outside a session [dump] is the engine's dump, whatever the value:
    a non-instance or an instance marked valid gets the normal walk.  So a
    call whose result differs from the engine's runs inside a session. *)
Theorem dump_outside_session (self : schema_class) (obj : value)
    (many : bool) (w : world) :
  validating w = false ->
  dump self obj many w = Schema_dump self obj many w.
Proof.
  intros Hidle. unfold dump. rewrite run_bind. unfold is_validating.
  now rewrite Hidle.
Qed.

Lemma dump_outside_session_witness :
  dump BoundPersonSchema (obj_of valid_ada) false idle
    = Schema_dump BoundPersonSchema (obj_of valid_ada) false idle.
Proof.
  apply (dump_outside_session BoundPersonSchema (obj_of valid_ada) false idle).
  reflexivity.
Defined.

Lemma dump_special_only_in_session (self : schema_class) (obj : value)
    (many : bool) (w : world) :
  dump self obj many w <> Schema_dump self obj many w -> validating w = true.
Proof.
  intros Hdiff. destruct (validating w) eqn:Hv; [reflexivity|].
  exfalso. apply Hdiff. unfold dump. rewrite run_bind. unfold is_validating.
  now rewrite Hv.
Qed.

(** C4, as the code has it: while a session is active, dumping a value that
    is not an instance of the bound model returns that same value together
    with the single error [NotAnInstance], and does not raise. *)
Theorem dump_not_an_instance (self : schema_class) (obj : value)
    (many : bool) (w : world) :
  validating w = true ->
  isinstance obj (cls_name (model_cls self)) = false ->
  dump self obj many w
    = (Return (obj, [NotAnInstance (cls_name (model_cls self)) obj]), w).
Proof.
  intros Hsession Hinst. unfold dump. rewrite run_bind. unfold is_validating.
  now rewrite Hsession, Hinst.
Qed.

Lemma dump_not_an_instance_witness :
  dump BoundPersonSchema stranger false session
    = (Return (stranger, [NotAnInstance "Person" stranger]), session).
Proof.
  apply (dump_not_an_instance BoundPersonSchema stranger false session);
    reflexivity.
Defined.

(** C4 as stated fails outside a session: [stranger] is neither a [Person]
    nor the sentinel, and its dump is the normal walk, with no error. *)
Lemma dump_stranger_outside_session :
  isinstance stranger (cls_name (model_cls BoundPersonSchema)) = false /\
  stranger <> VALID_MODEL /\
  dump BoundPersonSchema stranger false idle
    = (Return (VDict (<["name" := VStr "Ada"]> ∅), []), World false 1).
Proof. split; [reflexivity|]. split; [discriminate|]. reflexivity. Qed.

(** ** Binding *)



(** ** The engine's walks *)

Lemma after_calls_0 (w : world) : after_calls 0 w = w.
Proof. now destruct w. Qed.

Lemma after_calls_S (n : nat) (w : world) :
  after_calls n (World (validating w) (S (field_calls w))) = after_calls (S n) w.
Proof. unfold after_calls. cbn. f_equal. lia. Qed.

Lemma marshal_run (index : option nat) (fields : list field) (obj : value)
    (w : world) :
  marshal index fields obj w =
  (Return (marshal_result fields obj, marshal_errors index fields obj),
   after_calls (marshal_calls fields obj) w).
Proof.
  revert w. induction fields as [|f rest IH]; intros w; cbn.
  - now rewrite run_ret, after_calls_0.
  - destruct (get_value (fname f) obj) as [v|]; [|apply IH].
    rewrite run_bind. unfold tick. rewrite run_bind, IH, after_calls_S.
    now destruct (to_primitive f v).
Qed.

Lemma unmarshal_run (index : option nat) (fields : list field)
    (data : gmap string value) (w : world) :
  unmarshal index fields data w =
  (Return (unmarshal_result fields data, unmarshal_errors index fields data),
   after_calls (unmarshal_calls fields data) w).
Proof.
  revert w. induction fields as [|f rest IH]; intros w; cbn.
  - now rewrite run_ret, after_calls_0.
  - destruct (data !! fname f) as [raw|].
    + rewrite run_bind. unfold tick. rewrite run_bind, IH, after_calls_S.
      now destruct (check_and_coerce f raw).
    + rewrite run_bind, IH. now destruct (is_required f).
Qed.

(** Running a computation step by step. *)
Ltac run_step :=
  first [rewrite run_bind | rewrite run_ret | rewrite marshal_run
        | rewrite unmarshal_run];
  cbv beta iota.
Ltac run := repeat run_step.

Lemma unmarshal_errors_missing (index : option nat) (fields : list field)
    (data : gmap string value) (f : field) :
  f ∈ fields -> is_required f = true -> data !! fname f = None ->
  FieldError index (fname f) "Missing data for required field."
    ∈ unmarshal_errors index fields data.
Proof.
  intros Hin Hreq Hmiss. induction fields as [|g rest IH]; [inversion Hin|].
  cbn. apply elem_of_cons in Hin as [<-|Hin].
  - rewrite Hmiss, Hreq. apply elem_of_cons. now left.
  - specialize (IH Hin).
    destruct (data !! fname g) as [raw|].
    + destruct (check_and_coerce g raw); [assumption|]. apply elem_of_cons. now right.
    + destruct (is_required g); [|assumption]. apply elem_of_cons. now right.
Qed.

Lemma Schema_load_errors (self : schema_class) (data : gmap string value)
    (w : world) (e : error) (errors : list error) :
  unmarshal_errors None (declared_fields self) data = e :: errors ->
  Schema_load self (VDict data) false w =
  (Return (VDict (unmarshal_result (declared_fields self) data), e :: errors),
   after_calls (unmarshal_calls (declared_fields self) data) w).
Proof.
  intros Herr. unfold Schema_load, deserialize, unmarshal_item.
  rewrite !run_bind, unmarshal_run. cbn. now rewrite Herr.
Qed.

(** ** Required fields *)

(** C6: [from_dict] on a mapping that lacks a required declared field raises
    [ValidationError], and the error set names that field. *)
Theorem from_dict_missing_required (schema : schema_class) (f : field)
    (dict_ : gmap string value) (w : world) :
  f ∈ declared_fields schema ->
  is_required f = true ->
  dict_ !! fname f = None ->
  exists errors w',
    _from_dict schema (VDict dict_) w = (Raise (ValidationError errors), w') /\
    FieldError None (fname f) "Missing data for required field." ∈ errors.
Proof.
  intros Hin Hreq Hmiss.
  pose proof (unmarshal_errors_missing None _ _ _ Hin Hreq Hmiss) as Herr.
  destruct (unmarshal_errors None (declared_fields schema) dict_) as [|e errors] eqn:E.
  { inversion Herr. }
  exists (e :: errors), (after_calls (unmarshal_calls (declared_fields schema) dict_) w).
  split; [|assumption].
  unfold _from_dict, load. rewrite run_bind.
  now rewrite (Schema_load_errors _ _ _ _ _ E).
Qed.

Lemma from_dict_missing_required_witness :
  exists errors w',
    _from_dict BoundPersonSchema (VDict (<["tag" := VStr "x"]> ∅)) idle
      = (Raise (ValidationError errors), w') /\
    FieldError None "name" "Missing data for required field." ∈ errors.
Proof.
  apply (from_dict_missing_required BoundPersonSchema (String_field "name" true)
           (<["tag" := VStr "x"]> ∅) idle).
  - apply elem_of_cons. left. reflexivity.
  - reflexivity.
  - reflexivity.
Defined.

(** ** The merger, as a union of maps *)

Lemma copy_keys_cons (key : string) (keys : list string)
    (source valid : gmap string value) :
  copy_keys (key :: keys) source valid =
  match source !! key with
  | Some v => <[key := v]> (copy_keys keys source valid)
  | None => copy_keys keys source valid
  end.
Proof. reflexivity. Qed.

Lemma copy_keys_lookup (keys : list string) (source valid : gmap string value)
    (k : string) :
  copy_keys keys source valid !! k =
  if decide (k ∈ keys) then
    match source !! k with Some v => Some v | None => valid !! k end
  else valid !! k.
Proof.
  induction keys as [|key keys IH]; [reflexivity|].
  rewrite copy_keys_cons.
  destruct (decide (k = key)) as [->|Hne].
  - rewrite decide_True by (apply elem_of_cons; now left).
    destruct (source !! key) as [v|] eqn:Hsrc.
    + now rewrite lookup_insert_eq.
    + rewrite IH. now destruct (decide (key ∈ keys)); rewrite ?Hsrc.
  - assert (match source !! key with
            | Some v => <[key := v]> (copy_keys keys source valid)
            | None => copy_keys keys source valid
            end !! k = copy_keys keys source valid !! k) as ->.
    { destruct (source !! key); [now rewrite lookup_insert_ne|reflexivity]. }
    rewrite IH.
    destruct (decide (k ∈ keys)) as [Hin|Hnin].
    + rewrite decide_True by (apply elem_of_cons; now right). reflexivity.
    + rewrite decide_False; [reflexivity|].
      intros [?|?]%elem_of_cons; congruence.
Qed.

Lemma load_merge (original valid : gmap string value) :
  copy_keys (elements (dom original ∖ dom valid)) original valid = valid ∪ original.
Proof.
  apply map_eq. intros k. rewrite copy_keys_lookup, lookup_union.
  destruct (valid !! k) as [v|] eqn:Hv, (original !! k) as [o|] eqn:Ho;
    case_decide as Hin; try reflexivity;
    rewrite elem_of_elements, elem_of_difference, !elem_of_dom in Hin.
  - destruct Hin as [_ Hin]. exfalso. apply Hin. now rewrite Hv.
  - exfalso. apply Hin. rewrite Ho, Hv. split; [eauto|]. now intros [? ?].
Qed.

Lemma attributes_lookup (mro : list string) (attrs : gmap string value)
    (k : string) :
  attributes mro attrs !! k = getattr mro attrs k <$> attrs !! k.
Proof. unfold attributes. rewrite map_lookup_imap. now destruct (attrs !! k). Qed.

Lemma attributes_dom (mro : list string) (attrs : gmap string value) :
  dom (attributes mro attrs) = dom attrs.
Proof.
  apply set_eq. intros k. rewrite !elem_of_dom, attributes_lookup.
  destruct (attrs !! k); cbn; split; intros [? ?]; eauto; discriminate.
Qed.

(** Outside the three names that descriptors answer, [getattr] gives the
    entry of [__dict__]. *)
Lemma getattr_entry (mro : list string) (attrs : gmap string value)
    (k : string) (stored : value) :
  k <> "__class__" -> k <> "__dict__" -> k <> "__weakref__" ->
  getattr mro attrs k stored = stored.
Proof.
  intros Hclass Hdict Hweak. unfold getattr.
  rewrite !decide_False; [reflexivity| |assumption..]. now intros [? _].
Qed.

Lemma attributes_entries (mro : list string) (attrs : gmap string value) :
  attrs !! "__class__" = None -> attrs !! "__dict__" = None ->
  attrs !! "__weakref__" = None ->
  attributes mro attrs = attrs.
Proof.
  intros Hclass Hdict Hweak. apply map_eq. intros k. rewrite attributes_lookup.
  destruct (attrs !! k) as [stored|] eqn:Hk; [|reflexivity]. cbn.
  rewrite getattr_entry; [reflexivity|congruence..].
Qed.

Lemma copy_attributes_lookup (keys : list string) (mro : list string)
    (attrs valid : gmap string value) (k : string) :
  copy_attributes keys mro attrs valid !! k =
  if decide (k ∈ keys) then
    match attributes mro attrs !! k with Some v => Some v | None => valid !! k end
  else valid !! k.
Proof.
  induction keys as [|key keys IH]; [reflexivity|]. cbn [copy_attributes foldr].
  fold (copy_attributes keys mro attrs valid).
  destruct (decide (k = key)) as [->|Hne].
  - rewrite decide_True by (apply elem_of_cons; now left).
    rewrite attributes_lookup.
    destruct (attrs !! key) as [stored|] eqn:Hsrc; cbn.
    + now rewrite lookup_insert_eq.
    + rewrite IH, attributes_lookup, Hsrc. now destruct (decide (key ∈ keys)).
  - assert (match attrs !! key with
            | Some stored =>
                <[key := getattr mro attrs key stored]>
                  (copy_attributes keys mro attrs valid)
            | None => copy_attributes keys mro attrs valid
            end !! k = copy_attributes keys mro attrs valid !! k) as ->.
    { destruct (attrs !! key); [now rewrite lookup_insert_ne|reflexivity]. }
    rewrite IH.
    destruct (decide (k ∈ keys)) as [Hin|Hnin].
    + rewrite decide_True by (apply elem_of_cons; now right). reflexivity.
    + rewrite decide_False; [reflexivity|].
      intros [?|?]%elem_of_cons; congruence.
Qed.

Lemma dump_merge (mro : list string) (attrs items : gmap string value) :
  copy_attributes (elements (dom attrs ∖ dom items ∖ list_to_set black_list))
                  mro attrs items
  = items ∪ delete "__is_valid__" (attributes mro attrs).
Proof.
  apply map_eq. intros k. rewrite copy_attributes_lookup, lookup_union.
  assert (k ∈ elements (dom attrs ∖ dom items ∖ list_to_set black_list)
          <-> is_Some (attrs !! k) /\ items !! k = None /\ k <> "__is_valid__") as Hkeys.
  { rewrite elem_of_elements, !elem_of_difference, !elem_of_dom.
    unfold black_list. rewrite elem_of_list_to_set, elem_of_cons, elem_of_nil.
    rewrite <- eq_None_not_Some. tauto. }
  destruct (decide (k = "__is_valid__")) as [->|Hne].
  - rewrite lookup_delete_eq. rewrite decide_False by (rewrite Hkeys; tauto).
    now destruct (items !! "__is_valid__").
  - rewrite lookup_delete_ne by congruence.
    case_decide as Hin.
    + apply Hkeys in Hin as ([v Hv] & Hi & _).
      rewrite Hi, attributes_lookup, Hv. reflexivity.
    + destruct (items !! k) as [i|] eqn:Hi;
        [now destruct (attributes mro attrs !! k)|].
      rewrite attributes_lookup.
      destruct (attrs !! k) as [v|] eqn:Hv; [|reflexivity].
      exfalso. apply Hin, Hkeys. eauto.
Qed.

Lemma dumped_union (fields : list field) (x : model_instance) :
  dumped fields x
  = marshal_result fields (obj_of x)
    ∪ delete "__is_valid__" (attributes (inst_mro x) (inst_dict x)).
Proof. apply dump_merge. Qed.

Lemma load_additional_item_union (valid original : gmap string value) :
  load_additional_item (VDict valid) (VDict original)
  = Return (VDict (valid ∪ original)).
Proof. cbn. now rewrite load_merge. Qed.

Lemma dump_additional_item_union (valid attrs : gmap string value)
    (mro : list string) :
  dump_additional_item (VDict valid) (VObj mro attrs)
  = Return (VDict (valid ∪ delete "__is_valid__" (attributes mro attrs))).
Proof. cbn. now rewrite dump_merge. Qed.

(** ** The validity cache *)

Lemma Schema_dump_object_run (self : schema_class) (x : model_instance) (w : world) :
  Schema_dump self (obj_of x) false w =
  (Return match marshal_errors None (declared_fields self) (obj_of x) with
          | [] => (VDict (dumped (declared_fields self) x), [])
          | errors => (VDict (marshal_result (declared_fields self) (obj_of x)), errors)
          end,
   after_calls (marshal_calls (declared_fields self) (obj_of x)) w).
Proof.
  unfold Schema_dump. rewrite !run_bind, marshal_run. cbn.
  now destruct (marshal_errors None (declared_fields self) (obj_of x)).
Qed.

Lemma to_dict_run (schema : schema_class) (x : model_instance) (w : world) :
  inst_dict x !! "schema" = None ->
  validating w = false \/
  (isinstance (obj_of x) (cls_name (model_cls schema)) = true /\ is_valid x = false) ->
  _to_dict schema x w =
  (match marshal_errors None (declared_fields schema) (obj_of x) with
   | [] => Return (VDict (dumped (declared_fields schema) x))
   | errors => Raise (ValidationError errors)
   end,
   after_calls (marshal_calls (declared_fields schema) (obj_of x)) w).
Proof.
  intros Hschema Hwalk. unfold _to_dict. rewrite through_schema_free by assumption.
  rewrite run_bind.
  assert (dump schema (obj_of x) false w = Schema_dump schema (obj_of x) false w) as ->.
  { unfold dump. rewrite run_bind. unfold is_validating.
    destruct (validating w); [|reflexivity].
    destruct Hwalk as [|[-> Hflag]]; [discriminate|].
    unfold is_valid in Hflag. now rewrite Hflag. }
  rewrite Schema_dump_object_run.
  now destruct (marshal_errors None (declared_fields schema) (obj_of x)).
Qed.

Lemma validate_run (schema : schema_class) (x : model_instance) (w : world) :
  inst_dict x !! "schema" = None ->
  inst_dict x !! "to_dict" = None ->
  is_valid x = false ->
  _validate schema x w =
  (validation_outcome schema x,
   World false (validation_calls schema x + field_calls w)).
Proof.
  intros Hschema Hto_dict Hflag. unfold _validate.
  rewrite through_schema_free by assumption. fold (is_valid x). rewrite Hflag.
  rewrite run_bind. unfold in_session, validation_outcome, validation_calls.
  rewrite run_bind. unfold call_to_dict.
  rewrite through_instance_free by assumption.
  destruct (isinstance (obj_of x) (cls_name (model_cls schema))) eqn:Hinst.
  - rewrite to_dict_run by (assumption || right; now split).
    destruct (marshal_errors None (declared_fields schema) (obj_of x)) as [|e errors].
    + unfold Schema_validate, deserialize, unmarshal_item.
      rewrite !run_bind, unmarshal_run. cbn.
      destruct (unmarshal_errors None (declared_fields schema)
                  (dumped (declared_fields schema) x));
        cbn; do 2 f_equal; lia.
    + reflexivity.
  - unfold _to_dict. rewrite through_schema_free by assumption.
    unfold dump, is_validating. rewrite !run_bind. cbn [validating].
    now rewrite Hinst.
Qed.

(** With an entry [to_dict] in [__dict__], validation stops at the call of
    that entry, before any field is called. *)
Lemma validate_hidden_to_dict (schema : schema_class) (x : model_instance)
    (v : value) (w : world) :
  inst_dict x !! "schema" = None ->
  inst_dict x !! "to_dict" = Some v ->
  is_valid x = false ->
  _validate schema x w =
  (match v with VClass _ | VALID_MODEL => Beyond | _ => Raise TypeError end,
   World false (field_calls w)).
Proof.
  intros Hschema Hto_dict Hflag. unfold _validate.
  rewrite through_schema_free by assumption. fold (is_valid x). rewrite Hflag.
  rewrite run_bind. unfold in_session. rewrite run_bind.
  unfold call_to_dict, through_instance. rewrite Hto_dict.
  now destruct v.
Qed.

Lemma is_valid_validate_model (x : model_instance) : is_valid (validate_model x) = true.
Proof. unfold is_valid. cbn. now rewrite lookup_insert_eq. Qed.

Lemma is_valid_invalidate_instance (x : model_instance) :
  is_valid_instance (obj_of (invalidate_instance x)) = VBool false.
Proof. cbn. now rewrite lookup_insert_eq. Qed.

Lemma validate_noop (schema : schema_class) (x : model_instance) (w : world) :
  inst_dict x !! "schema" = None ->
  is_valid x = true -> _validate schema x w = (Return x, w).
Proof.
  intros Hschema Hflag. unfold _validate.
  rewrite through_schema_free by assumption. fold (is_valid x). now rewrite Hflag.
Qed.

Lemma validation_outcome_cases (schema : schema_class) (x : model_instance) :
  validation_outcome schema x = Return (validate_model x) \/
  exists errors, validation_outcome schema x = Raise (ValidationError errors).
Proof.
  unfold validation_outcome.
  repeat (match goal with
          | |- context [match ?t with _ => _ end] => destruct t
          end); eauto.
Qed.

Lemma validate_returns_valid (schema : schema_class) (x x' : model_instance)
    (w w' : world) :
  _validate schema x w = (Return x', w') ->
  inst_dict x !! "schema" = None /\
  is_valid x' = true /\
  (is_valid x = true /\ x' = x /\ w' = w \/
   is_valid x = false /\ inst_dict x !! "to_dict" = None /\
   x' = validate_model x /\
   validation_outcome schema x = Return (validate_model x) /\
   w' = World false (validation_calls schema x + field_calls w)).
Proof.
  intros Hrun.
  assert (inst_dict x !! "schema" = None) as Hschema.
  { unfold _validate in Hrun. now apply through_schema_returns in Hrun as [? _]. }
  split; [assumption|].
  destruct (is_valid x) eqn:Hflag.
  - rewrite validate_noop in Hrun by assumption. injection Hrun as <- <-.
    split; [assumption|]. now left.
  - destruct (inst_dict x !! "to_dict") as [v|] eqn:Hto_dict.
    { rewrite (validate_hidden_to_dict schema x v) in Hrun by assumption.
      destruct v; discriminate. }
    rewrite validate_run in Hrun by assumption. injection Hrun as Hout <-.
    destruct (validation_outcome_cases schema x) as [Hok|[errors Hbad]];
      [|congruence].
    assert (x' = validate_model x) as -> by congruence.
    split; [apply is_valid_validate_model|]. right. auto.
Qed.


Lemma invalidate_returns (x x' : model_instance) (w w' : world) :
  _invalidate x w = (Return x', w') ->
  inst_dict x !! "schema" = None /\ x' = invalidate_instance x /\ w' = w.
Proof.
  unfold _invalidate. intros Hrun.
  apply through_schema_returns in Hrun as [Hschema Hrun].
  rewrite run_ret in Hrun. injection Hrun as <- <-. auto.
Qed.

(** The walks only read the declared names. *)
Lemma marshal_ext (index : option nat) (fields : list field) (o1 o2 : value) :
  (forall f, f ∈ fields -> get_value (fname f) o1 = get_value (fname f) o2) ->
  marshal_result fields o1 = marshal_result fields o2 /\
  marshal_errors index fields o1 = marshal_errors index fields o2 /\
  marshal_calls fields o1 = marshal_calls fields o2.
Proof.
  induction fields as [|f rest IH]; intros Hsame; cbn; [auto|].
  rewrite (Hsame f) by (apply elem_of_cons; now left).
  destruct IH as (-> & -> & ->); [|auto].
  intros g Hg. apply Hsame, elem_of_cons. now right.
Qed.


Lemma flag_not_read (fields : list field) (mro : list string)
    (attrs : gmap string value) (v : value) :
  "__is_valid__" ∉ (fname <$> fields) ->
  forall f, f ∈ fields ->
    get_value (fname f) (VObj mro (<["__is_valid__" := v]> attrs))
    = get_value (fname f) (VObj mro attrs).
Proof.
  intros Hfree f Hf. cbn. apply lookup_insert_ne. intros Heq. apply Hfree.
  rewrite Heq. now apply list_elem_of_fmap_2.
Qed.







(** ** The life of the validity flag *)

Lemma construct_trusted (schema : schema_class) (cls : model_class)
    (kwargs : gmap string value) (w : world) :
  lookup_init cls = validate_after_init SimpleNamespace_init ->
  kwargs !! "self" = None ->
  kwargs !! "schema" = None ->
  truthy (default (VBool false) (kwargs !! "__validity_warranty__")) = true ->
  construct schema cls kwargs w =
  (Return (validate_model
             (Instance (cls_mro cls) (delete "__validity_warranty__" kwargs))), w).
Proof.
  intros Hinit Hself Hschema Hwarrant. unfold construct. rewrite Hinit.
  cbn [run_init]. rewrite Hself, run_bind, run_ret, Hwarrant.
  cbn [inst_mro inst_dict]. rewrite (right_id_L ∅ (∪)).
  rewrite through_schema_free; [reflexivity|].
  cbn. now rewrite lookup_delete_ne.
Qed.

Lemma construct_checked (schema : schema_class) (cls : model_class)
    (kwargs : gmap string value) (w : world) :
  lookup_init cls = validate_after_init SimpleNamespace_init ->
  kwargs !! "self" = None ->
  kwargs !! "_validate" = None ->
  kwargs !! "__validity_warranty__" = None ->
  construct schema cls kwargs w
  = _validate schema (Instance (cls_mro cls) kwargs) w.
Proof.
  intros Hinit Hself Hvalidate Hnone. unfold construct. rewrite Hinit.
  cbn [run_init]. rewrite Hself, run_bind, run_ret, Hnone.
  cbn [inst_mro inst_dict default truthy].
  rewrite (right_id_L ∅ (∪)), delete_id by assumption.
  now rewrite through_instance_free.
Qed.

(** What the constructor of a class leaves, by the depth of the wrapping. *)
Lemma run_init_returns (schema : schema_class) (init : method)
    (mro : list string) (kwargs : gmap string value) (y : model_instance)
    (w w' : world) :
  run_init schema init (Instance mro ∅) kwargs w = (Return y, w') ->
  match init with
  | SimpleNamespace_init => y = Instance mro kwargs
  | _ => is_valid y = true
  end /\
  (is_valid y = true ->
   truthy (default (VBool false) (kwargs !! "__validity_warranty__")) = true \/
   truthy (default (VBool false) (kwargs !! "__is_valid__")) = true \/
   validation_outcome schema
     (Instance mro (delete "__validity_warranty__" kwargs)) = Return y).
Proof.
  revert kwargs y w w'.
  induction init as [| | | | |init IH]; intros kwargs y w w' Hrun;
    try (cbn in Hrun; discriminate).
  - cbn in Hrun. injection Hrun as <- <-. rewrite (right_id_L ∅ (∪)).
    split; [reflexivity|]. intros Hvalid. right. left. exact Hvalid.
  - cbn [run_init] in Hrun.
    destruct (kwargs !! "self"); [discriminate|].
    rewrite run_bind in Hrun.
    destruct (run_init schema init (Instance mro ∅)
                (delete "__validity_warranty__" kwargs) w)
      as [[y0| |] w0] eqn:Hinner; try discriminate.
    destruct (IH _ _ _ _ Hinner) as [Hshape Hwhy].
    destruct (truthy (default (VBool false) (kwargs !! "__validity_warranty__")))
      eqn:Hwarrant.
    + apply through_schema_returns in Hrun as [_ Hrun].
      rewrite run_ret in Hrun. injection Hrun as <- <-.
      split; [apply is_valid_validate_model|]. intros _. now left.
    + apply through_instance_returns in Hrun as [_ Hrun].
      apply validate_returns_valid in Hrun as (_ & Hvalid & Hcases).
      split; [assumption|]. intros _. right.
      destruct Hcases as [(Hwas & -> & _)|(Hwas & _ & -> & Hout & _)].
      * destruct (Hwhy Hwas) as [Habs|[Hkw|Hval]].
        -- rewrite lookup_delete_eq in Habs. discriminate.
        -- left. now rewrite lookup_delete_ne in Hkw.
        -- right. now rewrite delete_delete_eq in Hval.
      * right. destruct init; try (rewrite Hshape in Hwas; discriminate).
        now rewrite Hshape in Hout |- *.
Qed.

Lemma setattr_returns (x x' : model_instance) (key : string) (v : value) :
  setattr x key v = Return x' ->
  x' = Instance (inst_mro x) (<[key := v]> (inst_dict x)).
Proof.
  unfold setattr. intros Hset.
  repeat case_decide; try discriminate; [now destruct v|congruence].
Qed.

Lemma delattr_returns (x x' : model_instance) (key : string) :
  delattr x key = Return x' ->
  x' = Instance (inst_mro x) (delete key (inst_dict x)).
Proof.
  unfold delattr. intros Hdel.
  repeat case_decide; try discriminate.
  destruct (inst_dict x !! key); [congruence|discriminate].
Qed.

Lemma to_dict_keeps_instance (schema : schema_class) (x x' : model_instance)
    (w w' : world) :
  perform schema Call_to_dict x w = (Return x', w') -> x' = x.
Proof.
  cbn. rewrite run_bind.
  destruct (_to_dict schema x w) as [[d|e|] w1]; try discriminate.
  rewrite run_ret. congruence.
Qed.

(** What a call that is neither [_validate] nor [_invalidate] does to the
    flag's slot. *)
Lemma perform_flag (schema : schema_class) (c : call) (x x' : model_instance)
    (w w' : world) :
  c <> Call_validate -> c <> Call_invalidate ->
  perform schema c x w = (Return x', w') ->
  inst_dict x' !! "__is_valid__" =
  match stores_flag c with
  | Some v => Some v
  | None => if deletes_flag c then None else inst_dict x !! "__is_valid__"
  end.
Proof.
  intros Hvalidate Hinvalidate Hrun.
  destruct c as [| | |key v|key|entries]; try congruence.
  - now apply to_dict_keeps_instance in Hrun as ->.
  - cbn in Hrun. unfold lift in Hrun.
    destruct (setattr x key v) as [y| |] eqn:Hset; try discriminate.
    injection Hrun as <- <-. apply setattr_returns in Hset as ->. cbn.
    case_decide as Hkey.
    + subst. apply lookup_insert_eq.
    + now apply lookup_insert_ne.
  - cbn in Hrun. unfold lift in Hrun.
    destruct (delattr x key) as [y| |] eqn:Hdel; try discriminate.
    injection Hrun as <- <-. apply delattr_returns in Hdel as ->. cbn.
    case_bool_decide as Hkey.
    + subst. apply lookup_delete_eq.
    + now apply lookup_delete_ne.
  - cbn in Hrun. rewrite run_ret in Hrun. injection Hrun as <- <-. cbn.
    rewrite lookup_union.
    destruct (entries !! "__is_valid__") as [v|]; cbn.
    + now destruct (inst_dict x !! "__is_valid__").
    + now rewrite (left_id_L None (∪)).
Qed.

(** C8, as the code has it.  Among the calls on an instance (validating it,
    invalidating it, dumping it, setting or deleting an attribute, updating
    its [__dict__]), the flag goes from false to true only in a [_validate]
    whose checks passed or when the caller stores a true value in the flag's
    slot, and from true to false only in [_invalidate] or when the caller
    stores a false value there or deletes the slot; a returning [_validate]
    leaves it true, [_invalidate] leaves it false, and every other call that
    does not touch the slot leaves it as it was.  An instance that a
    constructor returns with the flag true was built with
    [__validity_warranty__], was given a true [__is_valid__] as a keyword, or
    passed the checks; a wrapped constructor never returns one with the flag
    false.  An instance with no flag attribute reads as [False]. *)
Theorem validity_flag_lifecycle (schema : schema_class) (c : call)
    (x x' : model_instance) (w w' : world) :
  perform schema c x w = (Return x', w') ->
  (is_valid x = false -> is_valid x' = true ->
   c = Call_validate /\ validation_outcome schema x = Return x' \/
   exists v, stores_flag c = Some v /\ truthy v = true) /\
  (is_valid x = true -> is_valid x' = false ->
   c = Call_invalidate \/
   (exists v, stores_flag c = Some v /\ truthy v = false) \/
   deletes_flag c = true) /\
  (c = Call_validate -> is_valid x' = true) /\
  (c = Call_invalidate -> is_valid_instance (obj_of x') = VBool false) /\
  (c <> Call_validate -> c <> Call_invalidate ->
   stores_flag c = None -> deletes_flag c = false ->
   is_valid_instance (obj_of x') = is_valid_instance (obj_of x)) /\
  (forall cls kwargs y u u',
     construct schema cls kwargs u = (Return y, u') ->
     ((exists init, lookup_init cls = validate_after_init init) ->
      is_valid y = true) /\
     (is_valid y = true ->
      truthy (default (VBool false) (kwargs !! "__validity_warranty__")) = true \/
      truthy (default (VBool false) (kwargs !! "__is_valid__")) = true \/
      validation_outcome schema
        (Instance (cls_mro cls) (delete "__validity_warranty__" kwargs))
      = Return y)) /\
  (forall mro attrs, attrs !! "__is_valid__" = None ->
     is_valid_instance (VObj mro attrs) = VBool false).
Proof.
  intros Hrun.
  assert (forall cls kwargs y u u',
     construct schema cls kwargs u = (Return y, u') ->
     ((exists init, lookup_init cls = validate_after_init init) ->
      is_valid y = true) /\
     (is_valid y = true ->
      truthy (default (VBool false) (kwargs !! "__validity_warranty__")) = true \/
      truthy (default (VBool false) (kwargs !! "__is_valid__")) = true \/
      validation_outcome schema
        (Instance (cls_mro cls) (delete "__validity_warranty__" kwargs))
      = Return y)) as Hconstruct.
  { intros cls kwargs y u u' Hbuilt. unfold construct in Hbuilt.
    apply run_init_returns in Hbuilt as [Hshape Hwhy]. split; [|assumption].
    intros [init Hinit]. now rewrite Hinit in Hshape. }
  assert (forall mro attrs, attrs !! "__is_valid__" = None ->
     is_valid_instance (VObj mro attrs) = VBool false) as Habsent.
  { intros mro attrs Hnone. cbn. now rewrite Hnone. }
  assert (c <> Call_validate -> c <> Call_invalidate ->
          is_valid_instance (obj_of x') =
          match stores_flag c with
          | Some v => v
          | None => if deletes_flag c then VBool false
                    else is_valid_instance (obj_of x)
          end) as Hother.
  { intros Hvalidate Hinvalidate.
    pose proof (perform_flag schema c x x' w w' Hvalidate Hinvalidate Hrun) as Hslot.
    unfold is_valid_instance, obj_of. rewrite Hslot.
    destruct (stores_flag c); [reflexivity|]. now destruct (deletes_flag c). }
  assert (c = Call_validate \/ c = Call_invalidate \/
          (c <> Call_validate /\ c <> Call_invalidate)) as Hwhich.
  { destruct c; auto; right; right; split; discriminate. }
  split; [|split; [|split; [|split; [|split; [|split; [exact Hconstruct|exact Habsent]]]]]].
  - intros Hwas Hnow.
    destruct Hwhich as [->|[->|[Hvalidate Hinvalidate]]].
    + left. split; [reflexivity|]. cbn in Hrun.
      apply validate_returns_valid in Hrun as (_ & _ & Hcases).
      destruct Hcases as [(Habs & _)|(_ & _ & -> & Hout & _)]; congruence.
    + cbn in Hrun. apply invalidate_returns in Hrun as (_ & -> & _).
      unfold is_valid in Hnow. rewrite is_valid_invalidate_instance in Hnow.
      discriminate.
    + right. unfold is_valid in Hwas, Hnow. rewrite Hother in Hnow by assumption.
      destruct (stores_flag c) as [v|]; [eauto|].
      destruct (deletes_flag c); [discriminate|congruence].
  - intros Hwas Hnow.
    destruct Hwhich as [->|[->|[Hvalidate Hinvalidate]]].
    + cbn in Hrun. apply validate_returns_valid in Hrun as (_ & Hvalid & _).
      congruence.
    + now left.
    + right. unfold is_valid in Hwas, Hnow. rewrite Hother in Hnow by assumption.
      destruct (stores_flag c) as [v|]; [eauto|].
      destruct (deletes_flag c); [now right|congruence].
  - intros ->. cbn in Hrun. now apply validate_returns_valid in Hrun as (_ & Hvalid & _).
  - intros ->. cbn in Hrun. apply invalidate_returns in Hrun as (_ & -> & _).
    apply is_valid_invalidate_instance.
  - intros Hvalidate Hinvalidate Hstores Hdelete.
    now rewrite Hother, Hstores, Hdelete by assumption.
Qed.

Lemma validity_flag_lifecycle_witness :
  is_valid valid_ada = true /\
  is_valid_instance (VObj ["Person"] ∅) = VBool false.
Proof.
  destruct (validity_flag_lifecycle BoundPersonSchema Call_validate fresh_ada
              valid_ada idle (World false 2))
    as (_ & _ & Hvalidated & _ & _ & _ & Habsent);
    [reflexivity|].
  split; [now apply Hvalidated|now apply Habsent].
Defined.

(** C8 as stated fails: a caller who passes [__is_valid__=True] to the
    constructor gets an instance marked valid, with no warranty given and no
    check run; this one lacks the required field and does not pass
    validation once the flag is reset. *)
Lemma flag_passed_as_keyword :
  let kwargs : gmap string value := {["__is_valid__" := VBool true]} in
  let x := Instance (cls_mro BoundPerson) kwargs in
  kwargs !! "__validity_warranty__" = None /\
  construct BoundPersonSchema BoundPerson kwargs idle = (Return x, idle) /\
  is_valid x = true /\
  _validate BoundPersonSchema (invalidate_instance x) idle
    = (Raise (ValidationError
                [FieldError None "name" "Missing data for required field."]),
       idle).
Proof. repeat split; vm_compute; reflexivity. Qed.

(** ** Loading a mapping *)

Lemma unmarshal_result_dom (fields : list field) (data : gmap string value)
    (k : string) :
  data !! k = None -> unmarshal_result fields data !! k = None.
Proof.
  intros Hnone. induction fields as [|f rest IH]; [reflexivity|]. cbn.
  destruct (data !! fname f) as [raw|] eqn:Hraw; [|assumption].
  destruct (check_and_coerce f raw); [|assumption].
  rewrite lookup_insert_ne; [assumption|congruence].
Qed.

(** The merged mapping has a key exactly when the input has it. *)
Lemma merged_lookup_key (fields : list field) (data : gmap string value)
    (k : string) :
  match data !! k with
  | Some _ => is_Some ((unmarshal_result fields data ∪ data) !! k)
  | None => (unmarshal_result fields data ∪ data) !! k = None
  end.
Proof.
  rewrite lookup_union. destruct (data !! k) as [v|] eqn:Hkey.
  - destruct (unmarshal_result fields data !! k); cbn; eauto.
  - now rewrite unmarshal_result_dom.
Qed.

Lemma merged_lookup_none (fields : list field) (data : gmap string value)
    (k : string) :
  (unmarshal_result fields data ∪ data) !! k = None <-> data !! k = None.
Proof.
  pose proof (merged_lookup_key fields data k) as Hkey.
  destruct (data !! k) as [v|]; [|tauto].
  destruct Hkey as [u Hu]. rewrite Hu. split; discriminate.
Qed.

Lemma make_model_bound (self : schema_class) (kwargs : gmap string value)
    (w : world) :
  lookup_init (model_cls self) = validate_after_init SimpleNamespace_init ->
  kwargs !! "__validity_warranty__" = None ->
  kwargs !! "self" = None ->
  kwargs !! "schema" = None ->
  _make_model self (VDict kwargs) w =
  (Return (obj_of (validate_model (Instance (cls_mro (model_cls self)) kwargs))), w).
Proof.
  intros Hinit Hwarranty Hself Hschema. unfold _make_model. rewrite Hwarranty.
  rewrite run_bind, construct_trusted; try assumption.
  - now rewrite delete_insert_eq, delete_id.
  - now rewrite lookup_insert_ne.
  - now rewrite lookup_insert_ne.
  - now rewrite lookup_insert_eq.
Qed.

Lemma make_model_returns (self : schema_class) (kwargs : gmap string value)
    (x : value) (w w' : world) :
  lookup_init (model_cls self) = validate_after_init SimpleNamespace_init ->
  _make_model self (VDict kwargs) w = (Return x, w') ->
  kwargs !! "__validity_warranty__" = None /\
  kwargs !! "self" = None /\
  kwargs !! "schema" = None.
Proof.
  intros Hinit Hrun. unfold _make_model in Hrun.
  destruct (kwargs !! "__validity_warranty__") eqn:Hwarranty; [discriminate|].
  split; [reflexivity|].
  rewrite run_bind in Hrun. unfold construct in Hrun. rewrite Hinit in Hrun.
  cbn [run_init] in Hrun. rewrite lookup_insert_ne in Hrun by discriminate.
  destruct (kwargs !! "self"); [discriminate|]. split; [reflexivity|].
  rewrite run_bind, run_ret, lookup_insert_eq in Hrun.
  cbn [default from_option id truthy] in Hrun.
  match type of Hrun with
  | context [through_schema ?i ?n ?m w] =>
      destruct (through_schema i n m w) as [[y| |] w1] eqn:Hmark; try discriminate
  end.
  apply through_schema_returns in Hmark as [Hschema _].
  cbn [inst_dict] in Hschema.
  rewrite (right_id_L ∅ (∪)), delete_insert_eq, delete_id in Hschema by assumption.
  exact Hschema.
Qed.

Lemma Schema_load_run (self : schema_class) (data : gmap string value) (w : world) :
  lookup_init (model_cls self) = validate_after_init SimpleNamespace_init ->
  unmarshal_errors None (declared_fields self) data = [] ->
  data !! "__validity_warranty__" = None ->
  data !! "self" = None ->
  data !! "schema" = None ->
  Schema_load self (VDict data) false w =
  (Return (obj_of (loaded self data), []),
   after_calls (unmarshal_calls (declared_fields self) data) w).
Proof.
  intros Hinit Hclean Hwarranty Hself Hschema.
  unfold Schema_load, deserialize, unmarshal_item.
  rewrite !run_bind, unmarshal_run. cbn [fst snd]. rewrite run_ret, Hclean.
  unfold load_additional_data. rewrite load_additional_item_union.
  unfold lift. rewrite !run_bind, make_model_bound;
    [reflexivity|assumption|now apply merged_lookup_none..].
Qed.

(** With the key [__validity_warranty__] in the input, [_make_model] gives
    that keyword twice. *)
Lemma Schema_load_warranty_key (self : schema_class) (data : gmap string value)
    (v : value) (w : world) :
  unmarshal_errors None (declared_fields self) data = [] ->
  data !! "__validity_warranty__" = Some v ->
  Schema_load self (VDict data) false w =
  (Raise TypeError, after_calls (unmarshal_calls (declared_fields self) data) w).
Proof.
  intros Hclean Hwarranty. unfold Schema_load, deserialize, unmarshal_item.
  rewrite !run_bind, unmarshal_run. cbn [fst snd]. rewrite run_ret, Hclean.
  unfold load_additional_data. rewrite load_additional_item_union.
  unfold lift. rewrite !run_bind. unfold _make_model.
  pose proof (merged_lookup_key (declared_fields self) data
                "__validity_warranty__") as Hkey.
  rewrite Hwarranty in Hkey. destruct Hkey as [u ->]. reflexivity.
Qed.

Lemma from_dict_returns (self : schema_class) (data : gmap string value)
    (x : value) (w w' : world) :
  lookup_init (model_cls self) = validate_after_init SimpleNamespace_init ->
  _from_dict self (VDict data) w = (Return x, w') ->
  unmarshal_errors None (declared_fields self) data = [] /\
  data !! "__validity_warranty__" = None /\
  data !! "self" = None /\
  data !! "schema" = None /\
  x = obj_of (loaded self data) /\
  w' = after_calls (unmarshal_calls (declared_fields self) data) w.
Proof.
  intros Hinit Hrun. unfold _from_dict, load in Hrun. rewrite run_bind in Hrun.
  destruct (unmarshal_errors None (declared_fields self) data) as [|e errors] eqn:Herr.
  - assert (data !! "__validity_warranty__" = None /\ data !! "self" = None /\
            data !! "schema" = None) as (Hwarranty & Hself & Hschema).
    { unfold Schema_load, deserialize, unmarshal_item in Hrun.
      rewrite !run_bind, unmarshal_run in Hrun. cbn [fst snd] in Hrun.
      rewrite run_ret, Herr in Hrun. unfold load_additional_data in Hrun.
      rewrite load_additional_item_union in Hrun. unfold lift in Hrun.
      rewrite !run_bind in Hrun.
      destruct (_make_model self _ _) as [[y| |] w1] eqn:Hmake; try discriminate.
      apply make_model_returns in Hmake as (H1 & H2 & H3); [|assumption].
      now rewrite !merged_lookup_none in H1, H2, H3. }
    rewrite Schema_load_run in Hrun by assumption.
    rewrite run_ret in Hrun. injection Hrun as <- <-. auto 10.
  - rewrite (Schema_load_errors _ _ _ _ _ Herr) in Hrun. discriminate.
Qed.

(** ** Reserved names *)

(** C7, as the code has it: on dump the merger never adds the reserved name
    [__is_valid__]: the output has it only if the walked fields had it.  On
    load the merger does not look at the reserved list: a key of the input
    that the validated output lacks is copied, the reserved name like any
    other.  For a bound model the wrapped constructor then stores the
    validity flag [True] under that name, whatever the input held. *)
Theorem reserved_name_on_dump_and_load (self : schema_class)
    (valid attrs original : gmap string value) (mro : list string) :
  (exists out,
     dump_additional_data (VDict valid) false (VObj mro attrs) = Return (VDict out) /\
     out !! "__is_valid__" = valid !! "__is_valid__") /\
  (exists out,
     load_additional_data (VDict valid) false (VDict original) = Return (VDict out) /\
     (valid !! "__is_valid__" = None ->
      out !! "__is_valid__" = original !! "__is_valid__")) /\
  (forall x w w',
     lookup_init (model_cls self) = validate_after_init SimpleNamespace_init ->
     _from_dict self (VDict original) w = (Return x, w') ->
     is_valid_instance x = VBool true).
Proof.
  split; [|split].
  - eexists. split; [apply dump_additional_item_union|].
    rewrite lookup_union, lookup_delete_eq. now destruct (valid !! "__is_valid__").
  - eexists. split; [apply load_additional_item_union|].
    intros Hnone. now rewrite lookup_union, Hnone, (left_id_L None (∪)).
  - intros x w w' Hinit Hrun.
    apply from_dict_returns in Hrun as (_ & _ & _ & _ & -> & _); [|assumption].
    cbn. now rewrite lookup_insert_eq.
Qed.

(** C7 as stated fails on load: the merger copies the reserved key, and the
    default model class of an unbound schema, [SimpleNamespace], keeps it in
    the constructed instance. *)
Lemma reserved_name_copied_on_load :
  load_additional_data (VDict ∅) false (VDict {["__is_valid__" := VInt 5]})
    = Return (VDict {["__is_valid__" := VInt 5]}) /\
  fst (load PersonSchema (VDict (<["__is_valid__" := VInt 5]> ada)) false idle)
    = Return (VObj ["SimpleNamespace"]
                (<["__validity_warranty__" := VBool true]>
                   (<["__is_valid__" := VInt 5]> ada)), []).
Proof. split; reflexivity. Qed.

Lemma reserved_name_on_dump_and_load_witness :
  is_valid_instance
    (obj_of (loaded BoundPersonSchema (<["__is_valid__" := VInt 5]> ada)))
  = VBool true.
Proof.
  destruct (reserved_name_on_dump_and_load BoundPersonSchema ∅ ∅
              (<["__is_valid__" := VInt 5]> ada) []) as (_ & _ & Hflag).
  apply (Hflag _ idle (World false 1)); reflexivity.
Defined.

(** Membership in a list that is written out. *)
Ltac in_list :=
  unfold hiding_names;
  repeat first [apply list_elem_of_here | apply list_elem_of_further].

(** ** List mode *)

Lemma after_calls_add (n m : nat) (w : world) :
  after_calls n (after_calls m w) = after_calls (n + m) w.
Proof. unfold after_calls. cbn. f_equal. lia. Qed.

Lemma unmarshal_many_two (fields : list field) (a b : gmap string value)
    (w : world) :
  unmarshal_many 0 fields [VDict a; VDict b] w =
  (Return ([VDict (unmarshal_result fields a); VDict (unmarshal_result fields b)],
           unmarshal_errors (Some 0) fields a ++ unmarshal_errors (Some 1) fields b),
   after_calls (unmarshal_calls fields b + unmarshal_calls fields a) w).
Proof.
  cbn [unmarshal_many unmarshal_item]. run.
  now rewrite after_calls_add, (right_id_L [] (++)).
Qed.

Lemma marshal_many_two (fields : list field) (oa ob : value) (w : world) :
  marshal_many 0 fields [oa; ob] w =
  (Return ([VDict (marshal_result fields oa); VDict (marshal_result fields ob)],
           marshal_errors (Some 0) fields oa ++ marshal_errors (Some 1) fields ob),
   after_calls (marshal_calls fields ob + marshal_calls fields oa) w).
Proof.
  cbn [marshal_many]. run.
  now rewrite after_calls_add, (right_id_L [] (++)).
Qed.

(** The loops of the merger pair the elements by index. *)
Lemma dump_additional_loop_aligned (valid_data : list value)
    (original_data : value) (i : nat) (out : list value) :
  dump_additional_loop i valid_data original_data = Return out ->
  length out = length valid_data /\
  forall j item, valid_data !! j = Some item ->
    exists original item',
      subscript original_data (i + j) = Return original /\
      dump_additional_item item original = Return item' /\
      out !! j = Some item'.
Proof.
  revert i out. induction valid_data as [|item rest IH]; intros i out Hrun.
  - injection Hrun as <-. split; [reflexivity|]. intros j item Hj. inversion Hj.
  - cbn [dump_additional_loop] in Hrun.
    destruct (subscript original_data i) as [original| |] eqn:Horiginal;
      try discriminate.
    cbn [and_then] in Hrun.
    destruct (dump_additional_item item original) as [item'| |] eqn:Hitem;
      try discriminate.
    cbn [and_then] in Hrun.
    destruct (dump_additional_loop (S i) rest original_data) as [rest'| |] eqn:Hrest;
      try discriminate.
    injection Hrun as <-. destruct (IH _ _ Hrest) as [Hlen Hlookup].
    split; [cbn; now rewrite Hlen|].
    intros [|j] item0 Hj.
    + injection Hj as <-. exists original, item'. rewrite Nat.add_0_r. auto.
    + destruct (Hlookup j item0 Hj) as (o & it & Ho & Hit & Hout).
      exists o, it. rewrite Nat.add_succ_r. auto.
Qed.

Lemma load_additional_loop_aligned (valid_data : list value)
    (original_data : value) (i : nat) (out : list value) :
  load_additional_loop i valid_data original_data = Return out ->
  length out = length valid_data /\
  forall j item, valid_data !! j = Some item ->
    exists original item',
      subscript original_data (i + j) = Return original /\
      load_additional_item item original = Return item' /\
      out !! j = Some item'.
Proof.
  revert i out. induction valid_data as [|item rest IH]; intros i out Hrun.
  - injection Hrun as <-. split; [reflexivity|]. intros j item Hj. inversion Hj.
  - cbn [load_additional_loop] in Hrun.
    destruct (subscript original_data i) as [original| |] eqn:Horiginal;
      try discriminate.
    cbn [and_then] in Hrun.
    destruct (load_additional_item item original) as [item'| |] eqn:Hitem;
      try discriminate.
    cbn [and_then] in Hrun.
    destruct (load_additional_loop (S i) rest original_data) as [rest'| |] eqn:Hrest;
      try discriminate.
    injection Hrun as <-. destruct (IH _ _ Hrest) as [Hlen Hlookup].
    split; [cbn; now rewrite Hlen|].
    intros [|j] item0 Hj.
    + injection Hj as <-. exists original, item'. rewrite Nat.add_0_r. auto.
    + destruct (Hlookup j item0 Hj) as (o & it & Ho & Hit & Hout).
      exists o, it. rewrite Nat.add_succ_r. auto.
Qed.

Lemma dump_additional_two (va vb aa ab : gmap string value) (ma mb : list string) :
  dump_additional_data (VList [VDict va; VDict vb]) true
                       (VList [VObj ma aa; VObj mb ab])
  = Return (VList [VDict (va ∪ delete "__is_valid__" (attributes ma aa));
                   VDict (vb ∪ delete "__is_valid__" (attributes mb ab))]).
Proof.
  unfold dump_additional_data.
  cbn [dump_additional_loop subscript lookup list_lookup and_then].
  rewrite !dump_additional_item_union. reflexivity.
Qed.

Lemma load_additional_two (va vb oa ob : gmap string value) :
  load_additional_data (VList [VDict va; VDict vb]) true
                       (VList [VDict oa; VDict ob])
  = Return (VList [VDict (va ∪ oa); VDict (vb ∪ ob)]).
Proof.
  unfold load_additional_data.
  cbn [load_additional_loop subscript lookup list_lookup and_then].
  rewrite !load_additional_item_union. reflexivity.
Qed.

(** C9, as the code has it: the list mode is that of the schema's [load]
    and [dump]; [from_dict] has none.  Over a two-element input the result
    is a two-element list whose element [i] comes from input element [i].
    When element 1 has errors and element 0 has none, the result still holds
    what the walk produced for element 0, and the errors are those of
    element 1, under its index.  When neither has errors, each element is
    what the hooks make of it: on load the two instances, for mappings
    without the keys [__validity_warranty__], [self] and [schema]; on dump,
    outside a session, the two dumped mappings.  The merger works element by
    element, on the pair at the same index.  Inside a session the list is no
    instance of the model, and [dump] returns it with that error.
    [from_dict] of the list raises [ValidationError] when the schema
    declares a field. *)
Theorem many_mode_two_elements (self : schema_class) (a b : gmap string value)
    (xa xb : model_instance) (w : world) :
  let fields := declared_fields self in
  (unmarshal_errors (Some 0) fields a = [] ->
   unmarshal_errors (Some 1) fields b <> [] ->
   load self (VList [VDict a; VDict b]) true w =
   (Return (VList [VDict (unmarshal_result fields a);
                   VDict (unmarshal_result fields b)],
            unmarshal_errors (Some 1) fields b),
    after_calls (unmarshal_calls fields b + unmarshal_calls fields a) w)) /\
  (lookup_init (model_cls self) = validate_after_init SimpleNamespace_init ->
   unmarshal_errors (Some 0) fields a = [] ->
   unmarshal_errors (Some 1) fields b = [] ->
   (forall k, k ∈ ["__validity_warranty__"; "self"; "schema"] ->
      a !! k = None /\ b !! k = None) ->
   load self (VList [VDict a; VDict b]) true w =
   (Return (VList [obj_of (loaded self a); obj_of (loaded self b)], []),
    after_calls (unmarshal_calls fields b + unmarshal_calls fields a) w)) /\
  (validating w = false ->
   marshal_errors (Some 0) fields (obj_of xa) = [] ->
   marshal_errors (Some 1) fields (obj_of xb) <> [] ->
   dump self (VList [obj_of xa; obj_of xb]) true w =
   (Return (VList [VDict (marshal_result fields (obj_of xa));
                   VDict (marshal_result fields (obj_of xb))],
            marshal_errors (Some 1) fields (obj_of xb)),
    after_calls (marshal_calls fields (obj_of xb) + marshal_calls fields (obj_of xa)) w)) /\
  (validating w = false ->
   marshal_errors (Some 0) fields (obj_of xa) = [] ->
   marshal_errors (Some 1) fields (obj_of xb) = [] ->
   dump self (VList [obj_of xa; obj_of xb]) true w =
   (Return (VList [VDict (dumped fields xa); VDict (dumped fields xb)], []),
    after_calls (marshal_calls fields (obj_of xb) + marshal_calls fields (obj_of xa)) w)) /\
  dump_additional_data
    (VList [VDict a; VDict b]) true (VList [obj_of xa; obj_of xb])
  = Return (VList [VDict (a ∪ delete "__is_valid__"
                                (attributes (inst_mro xa) (inst_dict xa)));
                   VDict (b ∪ delete "__is_valid__"
                                (attributes (inst_mro xb) (inst_dict xb)))]) /\
  load_additional_data
    (VList [VDict (inst_dict xa); VDict (inst_dict xb)]) true
    (VList [VDict a; VDict b])
  = Return (VList [VDict (inst_dict xa ∪ a); VDict (inst_dict xb ∪ b)]) /\
  (validating w = true ->
   dump self (VList [obj_of xa; obj_of xb]) true w =
   (Return (VList [obj_of xa; obj_of xb],
            [NotAnInstance (cls_name (model_cls self))
                           (VList [obj_of xa; obj_of xb])]), w)) /\
  (fields <> [] ->
   _from_dict self (VList [VDict a; VDict b]) w =
   (Raise (ValidationError [FieldError None "_schema" "Invalid input type."]), w)).
Proof.
  intros fields. repeat apply conj.
  - intros Ha Hb. unfold load, Schema_load, deserialize.
    run. rewrite unmarshal_many_two. run. fold fields. rewrite Ha. cbn [app].
    now destruct (unmarshal_errors (Some 1) fields b).
  - intros Hinit Ha Hb Hkeys.
    assert (forall k, k ∈ ["__validity_warranty__"; "self"; "schema"] ->
              (unmarshal_result fields a ∪ a) !! k = None /\
              (unmarshal_result fields b ∪ b) !! k = None) as Hmerged.
    { intros k Hk. destruct (Hkeys k Hk). now rewrite !merged_lookup_none. }
    unfold load, Schema_load, deserialize.
    run. rewrite unmarshal_many_two. run. fold fields. rewrite Ha, Hb. cbn [app].
    rewrite load_additional_two. unfold lift. run. cbn [make_models]. run.
    rewrite make_model_bound; [|assumption|apply Hmerged; in_list..]. run.
    rewrite make_model_bound; [|assumption|apply Hmerged; in_list..]. run.
    reflexivity.
  - intros Hidle Ha Hb. unfold dump, is_validating. run. rewrite Hidle.
    unfold Schema_dump. run. rewrite marshal_many_two. run. fold fields.
    rewrite Ha. cbn [app].
    now destruct (marshal_errors (Some 1) fields (obj_of xb)).
  - intros Hidle Ha Hb. unfold dump, is_validating. run. rewrite Hidle.
    unfold Schema_dump. run. rewrite marshal_many_two. run. fold fields.
    rewrite Ha, Hb. cbn [app].
    rewrite (dump_additional_two _ _ (inst_dict xa) (inst_dict xb)
               (inst_mro xa) (inst_mro xb) : dump_additional_data _ true
               (VList [obj_of xa; obj_of xb]) = _).
    unfold lift. run.
    now rewrite <- !dumped_union.
  - apply dump_additional_two.
  - apply load_additional_two.
  - intros Hsession. unfold dump, is_validating. run. now rewrite Hsession.
  - intros _. unfold _from_dict, load, Schema_load, deserialize, unmarshal_item.
    run. reflexivity.
Qed.

Lemma many_mode_two_elements_witness :
  load BoundPersonSchema (VList [VDict ada; VDict (<["tag" := VStr "x"]> ∅)])
       true idle
  = (Return (VList [VDict (<["name" := VStr "Ada"]> ∅); VDict ∅],
             [FieldError (Some 1) "name" "Missing data for required field."]),
     World false 1).
Proof.
  destruct (many_mode_two_elements BoundPersonSchema ada
              (<["tag" := VStr "x"]> ∅) fresh_ada fresh_ada idle)
    as (Herror & _).
  apply Herror; [reflexivity|discriminate].
Defined.

(** C9 as stated fails: [from_dict] takes no list mode.  Given the list
    [[ada, ada]] it runs the schema's [load] on the list as one element,
    and raises. *)
Lemma from_dict_has_no_list_mode :
  _from_dict BoundPersonSchema (VList [VDict ada; VDict ada]) idle
  = (Raise (ValidationError [FieldError None "_schema" "Invalid input type."]),
     idle).
Proof. reflexivity. Qed.

(** ** Round trip *)



Lemma unmarshal_result_declared (fields : list field) (m : gmap string value)
    (k : string) (v : value) :
  unmarshal_result fields m !! k = Some v -> k ∈ (fname <$> fields).
Proof.
  induction fields as [|f rest IH]; cbn [unmarshal_result marshal_result];
    [now rewrite lookup_empty|].
  intros Hk. rewrite fmap_cons, elem_of_cons.
  destruct (decide (k = fname f)) as [|Hne]; [now left|]. right. apply IH.
  destruct (m !! fname f) as [raw|]; [|assumption].
  destruct (check_and_coerce f raw); [|assumption].
  now rewrite lookup_insert_ne in Hk by congruence.
Qed.

Lemma unmarshal_result_lookup (fields : list field) (m : gmap string value)
    (f : field) (raw v : value) :
  NoDup (fname <$> fields) -> f ∈ fields ->
  m !! fname f = Some raw -> check_and_coerce f raw = inl v ->
  unmarshal_result fields m !! fname f = Some v.
Proof.
  intros Hnodup Hin Hraw Hcheck. induction fields as [|g rest IH]; [inversion Hin|].
  rewrite fmap_cons in Hnodup. apply NoDup_cons in Hnodup as [Hfresh Hnodup].
  cbn. apply elem_of_cons in Hin as [<-|Hin].
  - rewrite Hraw, Hcheck. apply lookup_insert_eq.
  - assert (fname g <> fname f) as Hne.
    { intros Heq. apply Hfresh. rewrite Heq. now apply list_elem_of_fmap_2. }
    specialize (IH Hnodup Hin).
    destruct (m !! fname g) as [raw'|]; [|assumption].
    destruct (check_and_coerce g raw'); [|assumption].
    now rewrite lookup_insert_ne.
Qed.

Lemma marshal_result_declared (fields : list field) (obj : value) (k : string)
    (p : value) :
  marshal_result fields obj !! k = Some p ->
  exists f v, f ∈ fields /\ fname f = k /\ get_value k obj = Some v /\
              to_primitive f v = inl p.
Proof.
  induction fields as [|f rest IH]; cbn [unmarshal_result marshal_result];
    [now rewrite lookup_empty|].
  intros Hk.
  assert (marshal_result rest obj !! k = Some p ->
          exists g v, g ∈ f :: rest /\ fname g = k /\ get_value k obj = Some v /\
                      to_primitive g v = inl p) as Hrest.
  { intros Hr. destruct (IH Hr) as (g & v & Hg & ?). exists g, v.
    split; [apply elem_of_cons; now right|assumption]. }
  destruct (get_value (fname f) obj) as [v|] eqn:Hget; [|auto].
  destruct (to_primitive f v) as [q|] eqn:Hprim; [|auto].
  destruct (decide (k = fname f)) as [->|Hne].
  - rewrite lookup_insert_eq in Hk. injection Hk as ->.
    exists f, v. split; [apply list_elem_of_here|auto].
  - rewrite lookup_insert_ne in Hk by congruence. auto.
Qed.

Lemma marshal_result_lookup (fields : list field) (obj : value) (f : field)
    (v p : value) :
  NoDup (fname <$> fields) -> f ∈ fields ->
  get_value (fname f) obj = Some v -> to_primitive f v = inl p ->
  marshal_result fields obj !! fname f = Some p.
Proof.
  intros Hnodup Hin Hget Hprim. induction fields as [|g rest IH]; [inversion Hin|].
  rewrite fmap_cons in Hnodup. apply NoDup_cons in Hnodup as [Hfresh Hnodup].
  cbn. apply elem_of_cons in Hin as [<-|Hin].
  - rewrite Hget, Hprim. apply lookup_insert_eq.
  - assert (fname g <> fname f) as Hne.
    { intros Heq. apply Hfresh. rewrite Heq. now apply list_elem_of_fmap_2. }
    specialize (IH Hnodup Hin).
    destruct (get_value (fname g) obj) as [v'|]; [|assumption].
    destruct (to_primitive g v'); [|assumption].
    now rewrite lookup_insert_ne.
Qed.

Lemma marshal_errors_nil (index : option nat) (fields : list field) (obj : value) :
  (forall f v, f ∈ fields -> get_value (fname f) obj = Some v ->
               exists p, to_primitive f v = inl p) ->
  marshal_errors index fields obj = [].
Proof.
  induction fields as [|f rest IH]; intros Hok; [reflexivity|]. cbn.
  assert (marshal_errors index rest obj = []) as Hrest.
  { apply IH. intros g v Hg. apply Hok, elem_of_cons. now right. }
  destruct (get_value (fname f) obj) as [v|] eqn:Hget; [|assumption].
  destruct (Hok f v (list_elem_of_here f rest) Hget) as [p ->]. assumption.
Qed.

Lemma merged_lookup (fields : list field) (m : gmap string value) (f : field) :
  NoDup (fname <$> fields) -> f ∈ fields -> accepts fields m ->
  match m !! fname f with
  | Some raw =>
      exists v, (unmarshal_result fields m ∪ m) !! fname f = Some v /\
                to_primitive f v = inl raw
  | None => (unmarshal_result fields m ∪ m) !! fname f = None
  end.
Proof.
  intros Hnodup Hin Hacc. specialize (Hacc f Hin).
  destruct (m !! fname f) as [raw|] eqn:Hraw.
  - destruct Hacc as (v & Hcheck & Hback). exists v. split; [|assumption].
    apply lookup_union_Some_l.
    now apply (unmarshal_result_lookup fields m f raw v).
  - rewrite lookup_union, Hraw, unmarshal_result_dom by assumption. reflexivity.
Qed.

Lemma loaded_lookup (self : schema_class) (m : gmap string value) (k : string) :
  k <> "__is_valid__" -> m !! k = None -> inst_dict (loaded self m) !! k = None.
Proof.
  intros Hne Hnone. cbn. rewrite lookup_insert_ne by congruence.
  now apply merged_lookup_none.
Qed.

Lemma loaded_dump (self : schema_class) (m : gmap string value) :
  NoDup (fname <$> declared_fields self) ->
  "__is_valid__" ∉ (fname <$> declared_fields self) ->
  accepts (declared_fields self) m ->
  m !! "__class__" = None -> m !! "__dict__" = None -> m !! "__weakref__" = None ->
  marshal_errors None (declared_fields self) (obj_of (loaded self m)) = [] /\
  dumped (declared_fields self) (loaded self m) = delete "__is_valid__" m.
Proof.
  intros Hnodup Hfree Hacc Hclass Hdict Hweak.
  set (fields := declared_fields self) in *.
  set (merged := unmarshal_result fields m ∪ m).
  set (mro := cls_mro (model_cls self)).
  destruct (marshal_ext None fields (obj_of (loaded self m)) (VObj mro merged))
    as (Hres & Herr & _).
  { apply flag_not_read, Hfree. }
  split.
  - rewrite Herr. apply marshal_errors_nil. intros f v Hin Hget.
    pose proof (merged_lookup fields m f Hnodup Hin Hacc) as Hm.
    cbn in Hget. fold merged in Hm.
    destruct (m !! fname f) as [raw|].
    + destruct Hm as (v' & Hv' & Hback). exists raw. congruence.
    + congruence.
  - rewrite dumped_union, Hres.
    rewrite attributes_entries by (apply loaded_lookup; (discriminate || assumption)).
    cbn [loaded validate_model inst_dict inst_mro].
    fold fields merged. rewrite delete_insert_eq.
    apply map_eq. intros k.
    destruct (decide (k = "__is_valid__")) as [->|Hne].
    + rewrite lookup_union, !lookup_delete_eq.
      destruct (marshal_result fields (VObj mro merged) !! "__is_valid__") as [p|] eqn:Hp;
        [|reflexivity].
      apply marshal_result_declared in Hp as (f & _ & Hin & Hname & _).
      exfalso. apply Hfree. rewrite <- Hname. now apply list_elem_of_fmap_2.
    + rewrite lookup_union, !lookup_delete_ne by congruence.
      destruct (marshal_result fields (VObj mro merged) !! k) as [p|] eqn:Hp.
      * apply marshal_result_declared in Hp as (f & v & Hin & <- & Hget & Hprim).
        pose proof (merged_lookup fields m f Hnodup Hin Hacc) as Hm.
        cbn in Hget. fold merged in Hm.
        destruct (m !! fname f) as [raw|].
        -- destruct Hm as (v' & Hv' & Hback).
           assert (v' = v) as -> by congruence.
           assert (p = raw) as -> by congruence.
           now destruct (merged !! fname f).
        -- congruence.
      * unfold merged at 1. rewrite lookup_union.
        destruct (unmarshal_result fields m !! k) as [v|] eqn:Hv.
        -- (* a declared name the mapping has: the walk must have dumped it *)
           pose proof (unmarshal_result_declared _ _ _ _ Hv) as Hdecl.
           apply list_elem_of_fmap in Hdecl as (f & -> & Hin).
           pose proof (merged_lookup fields m f Hnodup Hin Hacc) as Hm.
           fold merged in Hm.
           destruct (m !! fname f) as [raw|] eqn:Hraw.
           ++ destruct Hm as (v' & Hv' & Hback).
              rewrite (marshal_result_lookup fields (VObj mro merged) f v' raw)
                in Hp by assumption.
              discriminate.
           ++ rewrite unmarshal_result_dom in Hv by assumption. discriminate.
        -- now destruct (m !! k).
Qed.



Lemma ada_plain (k : string) : k ∈ hiding_names -> ada !! k = None.
Proof.
  unfold hiding_names. intros Hk.
  repeat (apply elem_of_cons in Hk as [->|Hk]; [reflexivity|]).
  now apply elem_of_nil in Hk.
Qed.



(** It fails as well for the other names the statement above excludes: an
    extra key [self] clashes with the first parameter of the wrapped
    constructor and an extra key [schema] hides the schema of the class, so
    that [from_dict] raises; an extra key [to_dict] hides the method; and
    under [__class__] the output holds the class, not the value given. *)
Lemma round_trip_breaks_on_hiding_names :
  _from_dict BoundPersonSchema (VDict (<["self" := VInt 1]> ada)) idle
    = (Raise TypeError, World false 1) /\
  _from_dict BoundPersonSchema (VDict (<["schema" := VInt 5]> ada)) idle
    = (Raise AttributeError, World false 1) /\
  call_to_dict BoundPersonSchema
    (loaded BoundPersonSchema (<["to_dict" := VStr "x"]> ada)) (World false 1)
    = (Raise TypeError, World false 1) /\
  _from_dict BoundPersonSchema (VDict (<["__class__" := VInt 5]> ada)) idle
    = (Return (obj_of (loaded BoundPersonSchema (<["__class__" := VInt 5]> ada))),
       World false 1) /\
  call_to_dict BoundPersonSchema
    (loaded BoundPersonSchema (<["__class__" := VInt 5]> ada)) (World false 1)
    = (Return (VDict (<["__class__" := VClass ["Person"; "BaseModel"; "SimpleNamespace"]]>
                        ada)),
       World false 2).
Proof. repeat split; vm_compute; reflexivity. Qed.

(** * Further properties *)

(** ** The merger on one element *)

(** X1: on dump the merger keeps every entry of the schema's output, adds
    under every other name of the object's [__dict__], except
    [__is_valid__], what [getattr] answers for that name, and running it
    again on its own output changes nothing. *)
Theorem dump_merger_keeps_and_adds (valid attrs : gmap string value)
    (mro : list string) :
  exists out,
    dump_additional_data (VDict valid) false (VObj mro attrs) = Return (VDict out) /\
    (forall k v, valid !! k = Some v -> out !! k = Some v) /\
    (forall k, valid !! k = None -> k <> "__is_valid__" ->
       out !! k = getattr mro attrs k <$> attrs !! k) /\
    (forall k, valid !! k = None -> k <> "__is_valid__" ->
       k <> "__class__" -> k <> "__dict__" -> k <> "__weakref__" ->
       out !! k = attrs !! k) /\
    dump_additional_data (VDict out) false (VObj mro attrs) = Return (VDict out).
Proof.
  exists (valid ∪ delete "__is_valid__" (attributes mro attrs)).
  split; [apply dump_additional_item_union|].
  assert (forall k, valid !! k = None -> k <> "__is_valid__" ->
            (valid ∪ delete "__is_valid__" (attributes mro attrs)) !! k
            = getattr mro attrs k <$> attrs !! k) as Hadded.
  { intros k Hnone Hne.
    now rewrite lookup_union, Hnone, lookup_delete_ne, (left_id_L None (∪)),
      attributes_lookup. }
  split; [|split; [assumption|split]].
  - intros k v Hk. now apply lookup_union_Some_l.
  - intros k Hnone Hne Hclass Hdict Hweak. rewrite Hadded by assumption.
    destruct (attrs !! k) as [stored|]; [|reflexivity]. cbn.
    now rewrite getattr_entry.
  - unfold dump_additional_data. rewrite dump_additional_item_union.
    do 2 f_equal. apply map_eq. intros k. rewrite !lookup_union.
    now destruct (valid !! k), (delete "__is_valid__" (attributes mro attrs) !! k).
Qed.

(** X2: on load the merger keeps every entry of the validated output, adds
    every other key of the input with its value as it is, and running it
    again on its own output changes nothing. *)
Theorem load_merger_keeps_and_adds (valid original : gmap string value) :
  exists out,
    load_additional_data (VDict valid) false (VDict original) = Return (VDict out) /\
    (forall k v, valid !! k = Some v -> out !! k = Some v) /\
    (forall k, valid !! k = None -> out !! k = original !! k) /\
    load_additional_data (VDict out) false (VDict original) = Return (VDict out).
Proof.
  exists (valid ∪ original).
  split; [apply load_additional_item_union|]. split; [|split].
  - intros k v Hk. now apply lookup_union_Some_l.
  - intros k Hnone. now rewrite lookup_union, Hnone, (left_id_L None (∪)).
  - unfold load_additional_data. rewrite load_additional_item_union.
    do 2 f_equal. apply map_eq. intros k. rewrite !lookup_union.
    now destruct (valid !! k), (original !! k).
Qed.

(** ** The merger in list mode *)

(** X3: in list mode the dump merger returns an empty output as it is,
    whatever the original.  When it returns for a list output, the result
    is a list as long as the output, element [j] of it is the merge of
    element [j] of the output with [original[j]], and, unless the output is
    empty, the original is a list at least as long. *)
Theorem dump_merger_list_mode (valid_items : list value) (original out : value) :
  dump_additional_data (VList []) true original = Return (VList []) /\
  (dump_additional_data (VList valid_items) true original = Return out ->
   exists out_items,
     out = VList out_items /\
     length out_items = length valid_items /\
     (forall j item, valid_items !! j = Some item ->
        exists o item',
          subscript original j = Return o /\
          dump_additional_item item o = Return item' /\
          out_items !! j = Some item') /\
     (valid_items <> [] ->
      exists original_items,
        original = VList original_items /\
        length valid_items <= length original_items)).
Proof.
  split; [reflexivity|].
  unfold dump_additional_data. intros Hrun.
  destruct (dump_additional_loop 0 valid_items original) as [out_items| |] eqn:Hloop;
    try discriminate.
  injection Hrun as <-.
  apply dump_additional_loop_aligned in Hloop as [Hlen Haligned].
  exists out_items. split; [reflexivity|]. split; [assumption|].
  split; [exact Haligned|]. intros Hnonempty.
  destruct valid_items as [|first rest]; [congruence|].
  destruct (Haligned 0 first eq_refl) as (o & item' & Ho & Hitem & _).
  destruct original as [| | |s|original_items| | | |]; try discriminate.
  - cbn in Ho. destruct (characters s !! 0) as [c|] eqn:Hc; [|discriminate].
    injection Ho as <-.
    assert (exists t, c = VStr t) as [t ->].
    { clear -Hc. destruct s; [discriminate|]. cbn in Hc. injection Hc as <-. eauto. }
    discriminate.
  - exists original_items. split; [reflexivity|].
    destruct (decide (length (first :: rest) <= length original_items))
      as [|Hshort]; [assumption|].
    destruct (lookup_lt_is_Some_2 (first :: rest) (length original_items))
      as [item Hitem']; [lia|].
    destruct (Haligned _ _ Hitem') as (o' & _ & Ho' & _).
    cbn in Ho'. rewrite lookup_ge_None_2 in Ho' by lia. discriminate.
Qed.

Lemma dump_merger_list_mode_witness :
  exists out_items,
    VList [VDict (<["name" := VStr "Ada"]> ∅)] = VList out_items /\
    length out_items = 1 /\
    (forall j item, [VDict ∅] !! j = Some item ->
       exists o item',
         subscript (VList [stranger]) j = Return o /\
         dump_additional_item item o = Return item' /\
         out_items !! j = Some item') /\
    ([VDict ∅] <> [] ->
     exists original_items,
       VList [stranger] = VList original_items /\ 1 <= length original_items).
Proof.
  apply (dump_merger_list_mode [VDict ∅] (VList [stranger])
           (VList [VDict (<["name" := VStr "Ada"]> ∅)])).
  reflexivity.
Defined.

(** X4: the same for the load merger: an empty output is returned as it is,
    whatever the input; when it returns for a list output, the result is a
    list as long as the output, and element [j] of it is the merge of
    element [j] of the output with [original[j]]. *)
Theorem load_merger_list_mode (valid_items : list value) (original out : value) :
  load_additional_data (VList []) true original = Return (VList []) /\
  (load_additional_data (VList valid_items) true original = Return out ->
   exists out_items,
     out = VList out_items /\
     length out_items = length valid_items /\
     forall j item, valid_items !! j = Some item ->
       exists o item',
         subscript original j = Return o /\
         load_additional_item item o = Return item' /\
         out_items !! j = Some item').
Proof.
  split; [reflexivity|].
  unfold load_additional_data. intros Hrun.
  destruct (load_additional_loop 0 valid_items original) as [out_items| |] eqn:Hloop;
    try discriminate.
  injection Hrun as <-.
  apply load_additional_loop_aligned in Hloop as [Hlen Haligned].
  exists out_items. auto.
Qed.

Lemma load_merger_list_mode_witness :
  exists out_items,
    VList [VDict ada] = VList out_items /\
    length out_items = 1 /\
    forall j item, [VDict ∅] !! j = Some item ->
      exists o item',
        subscript (VList [VDict ada]) j = Return o /\
        load_additional_item item o = Return item' /\
        out_items !! j = Some item'.
Proof.
  apply (load_merger_list_mode [VDict ∅] (VList [VDict ada]) (VList [VDict ada])).
  reflexivity.
Defined.

(** ** What [to_dict] returns *)

Lemma dumped_lookup (fields : list field) (x : model_instance) (k : string) :
  "__is_valid__" ∉ (fname <$> fields) ->
  is_Some (dumped fields x !! k) <->
  is_Some (inst_dict x !! k) /\ k <> "__is_valid__".
Proof.
  intros Hflag. rewrite dumped_union, lookup_union. split.
  - destruct (marshal_result fields (obj_of x) !! k) as [p|] eqn:Hwalk.
    + intros _. apply marshal_result_declared in Hwalk as (f & v & Hf & <- & Hv & _).
      cbn in Hv. split; [eauto|]. intros Heq. apply Hflag. rewrite <- Heq.
      now apply list_elem_of_fmap_2.
    + rewrite (left_id_L None (∪)). intros [v Hv].
      apply lookup_delete_Some in Hv as [Hne Hv].
      rewrite attributes_lookup in Hv.
      destruct (inst_dict x !! k); [|discriminate]. split; [eauto|congruence].
  - intros [[v Hv] Hne].
    assert (is_Some (delete "__is_valid__" (attributes (inst_mro x) (inst_dict x))
                       !! k)) as [u ->].
    { rewrite lookup_delete_ne, attributes_lookup, Hv by congruence. cbn. eauto. }
    destruct (marshal_result fields (obj_of x) !! k); eauto.
Qed.

(** X5: outside a session and with no field declared under the reserved
    name, what [to_dict] returns is a mapping whose keys are exactly the
    attribute names of the instance other than [__is_valid__], and under a
    name that is no declared field it holds what [getattr] answers: the
    entry of [__dict__], except under [__class__], [__dict__] and
    [__weakref__]. *)
Theorem to_dict_output (schema : schema_class) (x : model_instance)
    (data : value) (w w' : world) :
  validating w = false ->
  "__is_valid__" ∉ (fname <$> declared_fields schema) ->
  _to_dict schema x w = (Return data, w') ->
  exists d,
    data = VDict d /\
    dom d = dom (inst_dict x) ∖ {["__is_valid__"]} /\
    (forall k, k ∉ (fname <$> declared_fields schema) -> k <> "__is_valid__" ->
       d !! k = getattr (inst_mro x) (inst_dict x) k <$> inst_dict x !! k) /\
    (forall k, k ∉ (fname <$> declared_fields schema) -> k <> "__is_valid__" ->
       k <> "__class__" -> k <> "__dict__" -> k <> "__weakref__" ->
       d !! k = inst_dict x !! k).
Proof.
  intros Hidle Hflag Hrun.
  assert (inst_dict x !! "schema" = None) as Hschema.
  { unfold _to_dict in Hrun. now apply through_schema_returns in Hrun as [? _]. }
  rewrite to_dict_run in Hrun by (assumption || now left).
  destruct (marshal_errors None (declared_fields schema) (obj_of x)); [|discriminate].
  injection Hrun as <- _. eexists. split; [reflexivity|].
  assert (forall k, k ∉ (fname <$> declared_fields schema) -> k <> "__is_valid__" ->
            dumped (declared_fields schema) x !! k
            = getattr (inst_mro x) (inst_dict x) k <$> inst_dict x !! k) as Hadded.
  { intros k Hundeclared Hne. rewrite dumped_union, lookup_union.
    rewrite lookup_delete_ne, attributes_lookup by congruence.
    destruct (marshal_result (declared_fields schema) (obj_of x) !! k) as [p|] eqn:Hwalk.
    - apply marshal_result_declared in Hwalk as (f & v & Hf & <- & _).
      exfalso. apply Hundeclared. now apply list_elem_of_fmap_2.
    - now rewrite (left_id_L None (∪)). }
  split; [|split; [assumption|]].
  - apply set_eq. intros k.
    rewrite elem_of_dom, dumped_lookup by assumption.
    rewrite elem_of_difference, elem_of_dom, elem_of_singleton. reflexivity.
  - intros k Hundeclared Hne Hclass Hdict Hweak. rewrite Hadded by assumption.
    destruct (inst_dict x !! k) as [stored|]; [|reflexivity]. cbn.
    now rewrite getattr_entry.
Qed.

Lemma flag_not_declared_by_person :
  "__is_valid__" ∉ (fname <$> declared_fields BoundPersonSchema).
Proof.
  vm_compute. intros Hin.
  repeat (apply elem_of_cons in Hin as [Hin|Hin]; [discriminate|]).
  now apply elem_of_nil in Hin.
Qed.

Lemma to_dict_output_witness :
  exists d,
    VDict (<["name" := VStr "Ada"]> (<["tag" := VStr "x"]> ∅)) = VDict d /\
    dom d = dom (inst_dict valid_ada) ∖ {["__is_valid__"]} /\
    (forall k, k ∉ (fname <$> declared_fields BoundPersonSchema) ->
       k <> "__is_valid__" ->
       d !! k = getattr (inst_mro valid_ada) (inst_dict valid_ada) k
                  <$> inst_dict valid_ada !! k) /\
    (forall k, k ∉ (fname <$> declared_fields BoundPersonSchema) ->
       k <> "__is_valid__" ->
       k <> "__class__" -> k <> "__dict__" -> k <> "__weakref__" ->
       d !! k = inst_dict valid_ada !! k).
Proof.
  apply (to_dict_output BoundPersonSchema valid_ada _ idle (World false 1)).
  - reflexivity.
  - apply flag_not_declared_by_person.
  - vm_compute. reflexivity.
Defined.



(** Without the last condition the flag shows: under an entry [__dict__]
    the merger puts the instance's [__dict__] itself, flag included. *)
Lemma to_dict_shows_flag_under_dict_entry :
  let attrs : gmap string value := <["__dict__" := VInt 6]> ada in
  let x := Instance (cls_mro BoundPerson) attrs in
  _to_dict BoundPersonSchema x idle
    = (Return (VDict (<["__dict__" := VDict attrs]> ada)), World false 1) /\
  _to_dict BoundPersonSchema (validate_model x) idle
    = (Return (VDict (<["__dict__" := VDict (<["__is_valid__" := VBool true]> attrs)]>
                        ada)),
       World false 1).
Proof. split; vm_compute; reflexivity. Qed.

(** ** What [from_dict] builds *)

(** X7: take a schema bound to a model class whose constructor is that of
    [SimpleNamespace] wrapped once.  When its [from_dict] returns, the
    result is an instance of the model class, marked valid, whose attribute
    names are the keys of the input plus [__is_valid__]; a key that is no
    declared field holds the input's value as it is; and the field calls
    made are those of the one walk over the input: the constructor does not
    validate again. *)
Theorem from_dict_instance (schema : schema_class) (m : gmap string value)
    (x : value) (w w' : world) :
  lookup_init (model_cls schema) = validate_after_init SimpleNamespace_init ->
  _from_dict schema (VDict m) w = (Return x, w') ->
  exists attrs,
    x = VObj (cls_mro (model_cls schema)) attrs /\
    attrs !! "__is_valid__" = Some (VBool true) /\
    dom attrs = dom m ∪ {["__is_valid__"]} /\
    (forall k, k ∉ (fname <$> declared_fields schema) -> k <> "__is_valid__" ->
       attrs !! k = m !! k) /\
    field_calls w' = unmarshal_calls (declared_fields schema) m + field_calls w.
Proof.
  intros Hbound Hrun.
  apply from_dict_returns in Hrun as (_ & _ & _ & _ & -> & ->); [|assumption].
  eexists. split; [reflexivity|]. cbn [inst_dict loaded validate_model].
  split; [apply lookup_insert_eq|]. split; [|split].
  - rewrite dom_insert_L, dom_union_L.
    assert (dom (unmarshal_result (declared_fields schema) m) ⊆ dom m) as Hsub.
    { intros k Hk. apply elem_of_dom in Hk as [v Hv]. apply elem_of_dom.
      destruct (m !! k) eqn:Hm; [eauto|].
      now rewrite (unmarshal_result_dom _ _ _ Hm) in Hv. }
    apply set_eq. intros k. rewrite !elem_of_union, elem_of_singleton.
    specialize (Hsub k). tauto.
  - intros k Hundeclared Hne. rewrite lookup_insert_ne by congruence.
    rewrite lookup_union.
    destruct (unmarshal_result (declared_fields schema) m !! k) as [v|] eqn:Hwalk.
    + apply unmarshal_result_declared in Hwalk. contradiction.
    + now rewrite (left_id_L None (∪)).
  - reflexivity.
Qed.

Lemma from_dict_instance_witness :
  exists attrs,
    obj_of valid_ada = VObj (cls_mro (model_cls BoundPersonSchema)) attrs /\
    attrs !! "__is_valid__" = Some (VBool true) /\
    dom attrs = dom ada ∪ {["__is_valid__"]} /\
    (forall k, k ∉ (fname <$> declared_fields BoundPersonSchema) ->
       k <> "__is_valid__" -> attrs !! k = ada !! k) /\
    field_calls (World false 1)
      = unmarshal_calls (declared_fields BoundPersonSchema) ada + field_calls idle.
Proof.
  apply (from_dict_instance BoundPersonSchema ada (obj_of valid_ada) idle (World false 1)).
  - reflexivity.
  - vm_compute. reflexivity.
Defined.

(** ** Calling the model class *)

(** X8: calling a bound model class without a value for a required field,
    with none of [__is_valid__], [__validity_warranty__], [self], [schema],
    [to_dict] and [_validate] among the arguments, raises [ValidationError];
    when the class is a subclass of the schema's model class and the dump
    walk reports no error, the errors name the missing field. *)
Theorem construct_missing_required (schema : schema_class) (cls : model_class)
    (kwargs : gmap string value) (f : field) (w : world) :
  lookup_init cls = validate_after_init SimpleNamespace_init ->
  (forall k, k ∈ ["__validity_warranty__"; "__is_valid__"; "self"; "schema";
                  "to_dict"; "_validate"] -> kwargs !! k = None) ->
  f ∈ declared_fields schema -> is_required f = true ->
  kwargs !! fname f = None ->
  exists errors w',
    construct schema cls kwargs w = (Raise (ValidationError errors), w') /\
    validating w' = false /\
    (cls_name (model_cls schema) ∈ cls_mro cls ->
     marshal_errors None (declared_fields schema) (VObj (cls_mro cls) kwargs) = [] ->
     FieldError None (fname f) "Missing data for required field." ∈ errors).
Proof.
  intros Hinit Hplain Hf Hrequired Hmissing.
  rewrite construct_checked by (assumption || apply Hplain; in_list).
  rewrite validate_run;
    [|apply Hplain; in_list..|
     unfold is_valid, is_valid_instance, obj_of; cbn [inst_dict];
     rewrite Hplain by in_list; reflexivity].
  assert (FieldError None (fname f) "Missing data for required field."
            ∈ unmarshal_errors None (declared_fields schema)
                (dumped (declared_fields schema) (Instance (cls_mro cls) kwargs)))
    as Hnamed.
  { apply unmarshal_errors_missing; [assumption..|].
    rewrite dumped_union, lookup_union. cbn [inst_dict inst_mro].
    destruct (marshal_result (declared_fields schema)
                (obj_of (Instance (cls_mro cls) kwargs)) !! fname f) as [p|] eqn:Hwalk.
    - apply marshal_result_declared in Hwalk as (g & v & _ & _ & Hv & _).
      cbn in Hv. congruence.
    - rewrite (left_id_L None (∪)). apply lookup_delete_None. right.
      now rewrite attributes_lookup, Hmissing. }
  unfold validation_outcome, isinstance, obj_of. cbn [inst_mro inst_dict].
  case_bool_decide as Hsub.
  - destruct (marshal_errors None (declared_fields schema) (VObj (cls_mro cls) kwargs))
      as [|e errors] eqn:Hdump.
    + unfold obj_of in Hnamed. cbn [inst_mro inst_dict] in Hnamed.
      destruct (unmarshal_errors None (declared_fields schema)
                  (dumped (declared_fields schema) (Instance (cls_mro cls) kwargs)))
        as [|e errors] eqn:Hload.
      * now apply elem_of_nil in Hnamed.
      * do 2 eexists. split; [reflexivity|]. split; [reflexivity|]. auto.
    + do 2 eexists. split; [reflexivity|]. split; [reflexivity|]. intros _ Hclean.
      discriminate.
  - do 2 eexists. split; [reflexivity|]. split; [reflexivity|]. intros Hin.
    contradiction.
Qed.

Lemma construct_missing_required_witness :
  exists errors w',
    construct BoundPersonSchema BoundPerson ∅ idle
      = (Raise (ValidationError errors), w') /\
    validating w' = false /\
    (cls_name (model_cls BoundPersonSchema) ∈ cls_mro BoundPerson ->
     marshal_errors None (declared_fields BoundPersonSchema)
       (VObj (cls_mro BoundPerson) ∅) = [] ->
     FieldError None (fname (String_field "name" true))
       "Missing data for required field." ∈ errors).
Proof.
  apply (construct_missing_required BoundPersonSchema BoundPerson ∅
           (String_field "name" true) idle).
  - reflexivity.
  - intros k _. apply lookup_empty.
  - apply list_elem_of_here.
  - reflexivity.
  - reflexivity.
Defined.

(** X9: when calling a bound model class returns (no
    [__validity_warranty__] among the arguments), the new instance has the
    class's ancestry, is marked valid, and apart from the flag holds exactly
    the arguments. *)
Theorem construct_returns (schema : schema_class) (cls : model_class)
    (kwargs : gmap string value) (x : model_instance) (w w' : world) :
  lookup_init cls = validate_after_init SimpleNamespace_init ->
  kwargs !! "__validity_warranty__" = None ->
  construct schema cls kwargs w = (Return x, w') ->
  inst_mro x = cls_mro cls /\ is_valid x = true /\
  forall k, k <> "__is_valid__" -> inst_dict x !! k = kwargs !! k.
Proof.
  intros Hinit Hwarranty Hrun. unfold construct in Hrun. rewrite Hinit in Hrun.
  cbn [run_init] in Hrun. destruct (kwargs !! "self"); [discriminate|].
  rewrite run_bind, run_ret, Hwarranty in Hrun.
  cbn [default from_option id truthy inst_mro inst_dict] in Hrun.
  rewrite (right_id_L ∅ (∪)), delete_id in Hrun by assumption.
  apply through_instance_returns in Hrun as [_ Hrun].
  apply validate_returns_valid in Hrun as (_ & Hvalid & Hcases).
  destruct Hcases as [(_ & -> & _)|(_ & _ & -> & _)].
  - split; [reflexivity|]. split; [assumption|]. reflexivity.
  - split; [reflexivity|]. split; [assumption|]. intros k Hne.
    cbn [validate_model inst_dict]. now rewrite lookup_insert_ne.
Qed.

Lemma construct_returns_witness :
  inst_mro valid_ada = cls_mro BoundPerson /\ is_valid valid_ada = true /\
  forall k, k <> "__is_valid__" -> inst_dict valid_ada !! k = ada !! k.
Proof.
  apply (construct_returns BoundPersonSchema BoundPerson ada valid_ada idle
           (World false 2)).
  - reflexivity.
  - reflexivity.
  - vm_compute. reflexivity.
Defined.

(** ** Pickling *)

(** X10: unpickling what [__reduce__] gives for an instance of a bound class
    calls the class with the instance's attributes, flag included.  With no
    entry [__validity_warranty__], [self] or [_validate] among them this is
    [_validate] on the instance; so an instance marked valid, with no entry
    [schema] either, comes back equal, with no field call. *)
Theorem unpickle_reduce (schema : schema_class) (cls : model_class)
    (x : model_instance) (w : world) :
  lookup_init cls = validate_after_init SimpleNamespace_init ->
  inst_mro x = cls_mro cls ->
  (forall k, k ∈ ["__validity_warranty__"; "self"; "_validate"] ->
     inst_dict x !! k = None) ->
  unpickle schema (__reduce__ cls x) w = _validate schema x w /\
  (is_valid x = true -> inst_dict x !! "schema" = None ->
   unpickle schema (__reduce__ cls x) w = (Return x, w)).
Proof.
  intros Hinit Hmro Hplain.
  assert (unpickle schema (__reduce__ cls x) w = _validate schema x w) as Hrun.
  { unfold unpickle, __reduce__, _base_model_from_kwargs. cbn [fst snd].
    rewrite construct_checked by (assumption || apply Hplain; in_list).
    rewrite <- Hmro. now destruct x. }
  split; [assumption|]. intros Hvalid Hschema. rewrite Hrun.
  now apply validate_noop.
Qed.

Lemma unpickle_reduce_witness :
  unpickle BoundPersonSchema (__reduce__ BoundPerson valid_ada) idle
    = _validate BoundPersonSchema valid_ada idle /\
  (is_valid valid_ada = true -> inst_dict valid_ada !! "schema" = None ->
   unpickle BoundPersonSchema (__reduce__ BoundPerson valid_ada) idle
     = (Return valid_ada, idle)).
Proof.
  apply (unpickle_reduce BoundPersonSchema BoundPerson valid_ada idle);
    [reflexivity..|].
  intros k Hk. repeat (apply elem_of_cons in Hk as [->|Hk]; [reflexivity|]).
  now apply elem_of_nil in Hk.
Defined.

(** ** [_validate] *)

(** X11: [_validate] changes nothing of an instance but the flag: when it
    returns, the instance is marked valid, has the same ancestry and, under
    every name other than [__is_valid__], the same attribute as before. *)
Theorem validate_changes_only_flag (schema : schema_class)
    (x x' : model_instance) (w w' : world) :
  _validate schema x w = (Return x', w') ->
  is_valid x' = true /\ inst_mro x' = inst_mro x /\
  forall k, k <> "__is_valid__" -> inst_dict x' !! k = inst_dict x !! k.
Proof.
  intros Hrun. apply validate_returns_valid in Hrun as (_ & Hvalid & Hcases).
  split; [assumption|].
  destruct Hcases as [(_ & -> & _)|(_ & _ & -> & _)].
  - split; reflexivity.
  - split; [reflexivity|]. intros k Hne. cbn [validate_model inst_dict].
    now rewrite lookup_insert_ne.
Qed.

Lemma validate_changes_only_flag_witness :
  is_valid valid_ada = true /\ inst_mro valid_ada = inst_mro fresh_ada /\
  forall k, k <> "__is_valid__" -> inst_dict valid_ada !! k = inst_dict fresh_ada !! k.
Proof.
  apply (validate_changes_only_flag BoundPersonSchema fresh_ada valid_ada idle
           (World false 2)).
  vm_compute. reflexivity.
Defined.

(** ** The generic object *)

(** X12: [Obj], bound to the field-less [ObjSchema], takes any mapping that
    has none of the keys [__validity_warranty__], [self], [schema],
    [to_dict], [__class__], [__dict__] and [__weakref__]: outside a session
    [from_dict] returns an instance, calling [to_dict] on it gives the
    mapping back except for the key [__is_valid__], and neither makes a
    field call. *)
Theorem Obj_round_trip (m : gmap string value) (w : world) :
  m !! "__validity_warranty__" = None ->
  (forall k, k ∈ hiding_names -> m !! k = None) ->
  validating w = false ->
  exists x,
    inst_mro x = cls_mro Obj /\
    _from_dict ObjSchema (VDict m) w = (Return (obj_of x), w) /\
    call_to_dict ObjSchema x w = (Return (VDict (delete "__is_valid__" m)), w).
Proof.
  intros Hwarranty Hplain Hidle. exists (loaded ObjSchema m).
  assert (forall k, k ∈ hiding_names -> inst_dict (loaded ObjSchema m) !! k = None)
    as Hloaded.
  { intros k Hk. apply loaded_lookup; [|now apply Hplain].
    intros ->. unfold hiding_names in Hk.
    repeat (apply elem_of_cons in Hk as [Hk|Hk]; [discriminate|]).
    now apply elem_of_nil in Hk. }
  split; [reflexivity|]. split.
  - unfold _from_dict, load. rewrite run_bind.
    rewrite Schema_load_run;
      [|reflexivity|reflexivity|assumption|apply Hplain; in_list..].
    cbn [declared_fields ObjSchema unmarshal_calls]. now rewrite after_calls_0.
  - destruct (loaded_dump ObjSchema m) as [Hclean Hdumped];
      try (apply Hplain; in_list).
    + apply NoDup_nil_2.
    + apply not_elem_of_nil.
    + intros f Hf. now apply elem_of_nil in Hf.
    + unfold call_to_dict.
      rewrite through_instance_free by (apply Hloaded; in_list).
      rewrite to_dict_run; [|apply Hloaded; in_list|now left].
      rewrite Hclean, Hdumped.
      cbn [declared_fields ObjSchema marshal_calls]. now rewrite after_calls_0.
Qed.

Lemma Obj_round_trip_witness :
  exists x,
    inst_mro x = cls_mro Obj /\
    _from_dict ObjSchema (VDict ada) idle = (Return (obj_of x), idle) /\
    call_to_dict ObjSchema x idle = (Return (VDict (delete "__is_valid__" ada)), idle).
Proof.
  apply (Obj_round_trip ada idle); [reflexivity|apply ada_plain|reflexivity].
Defined.

(** X13: calling [Obj] with keyword arguments that hold none of
    [__is_valid__], [__validity_warranty__], [self], [schema], [to_dict] and
    [_validate] never raises: it returns the instance that holds the
    arguments, marked valid. *)
Theorem Obj_takes_any_arguments (kwargs : gmap string value) (w : world) :
  (forall k, k ∈ ["__validity_warranty__"; "__is_valid__"; "self"; "schema";
                  "to_dict"; "_validate"] -> kwargs !! k = None) ->
  construct ObjSchema Obj kwargs w =
  (Return (Instance (cls_mro Obj) (<["__is_valid__" := VBool true]> kwargs)),
   World false (field_calls w)).
Proof.
  intros Hplain.
  rewrite construct_checked by (reflexivity || apply Hplain; in_list).
  rewrite validate_run;
    [reflexivity|apply Hplain; in_list..|
     unfold is_valid, is_valid_instance, obj_of; cbn [inst_dict];
     rewrite Hplain by in_list; reflexivity].
Qed.

Lemma Obj_takes_any_arguments_witness :
  construct ObjSchema Obj ada idle =
  (Return (Instance (cls_mro Obj) (<["__is_valid__" := VBool true]> ada)),
   World false (field_calls idle)).
Proof.
  apply (Obj_takes_any_arguments ada idle).
  intros k Hk. repeat (apply elem_of_cons in Hk as [->|Hk]; [reflexivity|]).
  now apply elem_of_nil in Hk.
Defined.

(** ** More on binding *)





(** ** Pickling what [from_dict] built *)


